(* Verification of the resilient request layer of the YarnGPT SDK
   (src/yarngpt/retry.py, client.py, async_client.py, exceptions.py,
   models.py).

   Modelling choices:
   - a Python str is a list of code points ([pystr]); ASCII literals are
     lifted with [lit];
   - Python floats of the retry configuration are rationals (Q);
   - JSON values and Python objects stored in exception arguments are
     [pyval];
   - the HTTP transport is a function from the index of the post (and the
     payload) to a response or to an httpx transport exception, so a
     stateful server is covered; a deterministic transport ignores the index;
   - random.random() is an explicit source [rnd : Z -> Q] indexed by attempt;
   - effects (posts, sleeps) are recorded in an event trace. *)

From Stdlib Require Import String Ascii List ZArith QArith Qminmax Bool Lia
  Permutation Lqa Qpower Qabs.
Import ListNotations.
Set Warnings "-register-all".
Open Scope list_scope.
Open Scope Z_scope.

(* ------------------------------------------------------------------------- *)
(** * Python values *)

Definition pystr := list N.

Definition lit (s : string) : pystr :=
  map N_of_ascii (list_ascii_of_string s).

Fixpoint n_digits (fuel : nat) (n : N) (acc : pystr) : pystr :=
  match fuel with
  | O => acc
  | S f =>
      let acc' := (48 + N.modulo n 10)%N :: acc in
      if N.ltb n 10 then acc' else n_digits f (N.div n 10) acc'
  end.

(** str() of a Python int. *)
Definition z_str (z : Z) : pystr :=
  if z <? 0 then 45%N :: n_digits (S (N.size_nat (Z.to_N (- z)))) (Z.to_N (- z)) []
  else n_digits (S (N.size_nat (Z.to_N z))) (Z.to_N z) [].

Definition pystr_eqb (a b : pystr) : bool :=
  if list_eq_dec N.eq_dec a b then true else false.

Inductive pyval :=
| PNone
| PBool (b : bool)
| PInt (z : Z)
| PFloat (q : Q)
| PStr (s : pystr)
| PList (l : list pyval)
| PDict (d : list (pystr * pyval)).

(** Lookup in a dict (keys of a decoded JSON object are distinct). *)
Fixpoint dict_lookup {V} (k : pystr) (d : list (pystr * V)) : option V :=
  match d with
  | [] => None
  | (k', v) :: d' => if pystr_eqb k k' then Some v else dict_lookup k d'
  end.

(* ------------------------------------------------------------------------- *)
(** * Exceptions (exceptions.py, the httpx exceptions, builtins) *)

Inductive exn :=
| AuthenticationError (m : pyval)
| ValidationError (m : pyval)
| APIError (m : pyval)
| QuotaExceededError (m : pyval)      (* subclass of APIError *)
| PaymentRequiredError (m : pyval)    (* subclass of APIError *)
| ValueError (m : pyval)
| RuntimeError (m : pyval)
| TypeError (m : pyval)
| TimeoutException (m : pystr)        (* httpx.TimeoutException *)
| NetworkError (m : pystr)            (* httpx.NetworkError *)
| OtherRequestError (m : pystr)       (* any other httpx.RequestError *)
| HTTPStatusError (status : Z)        (* httpx.HTTPStatusError *)
| OverflowError (m : pyval)
| ZeroDivisionError (m : pyval)
| OSError (m : pyval)
| OtherException (m : pystr).

Inductive outcome (A : Type) :=
| Return (a : A)
| Raise (e : exn).
Arguments Return {A} a.
Arguments Raise {A} e.

(* ------------------------------------------------------------------------- *)
(** * retry.py *)

Record RetryConfig := {
  max_retries : Z;
  backoff_factor : Q;
  max_backoff : Q;
  retry_statuses : list Z;
  jitter : bool
}.

Definition Qltb (a b : Q) : bool := negb (Qle_bool b a).

(** [RetryConfig(...)] with its [__post_init__] validation. *)
Definition make_retry_config (mr : Z) (bf mb : Q) (rs : list Z) (j : bool)
  : outcome RetryConfig :=
  if mr <? 0 then Raise (ValueError (PStr (lit "max_retries must be >= 0")))
  else if Qltb bf 1 then Raise (ValueError (PStr (lit "backoff_factor must be >= 1")))
  else if Qltb mb 0 then Raise (ValueError (PStr (lit "max_backoff must be >= 0")))
  else Return {| max_retries := mr; backoff_factor := bf; max_backoff := mb;
                 retry_statuses := rs; jitter := j |}.

(** [RetryConfig()] *)
Definition default_retry_config : RetryConfig :=
  {| max_retries := 3; backoff_factor := 2 # 1; max_backoff := 60 # 1;
     retry_statuses := [429; 500; 502; 503; 504]; jitter := true |}.

(** Python's [min(a, b)]: [b] if [b < a], else [a]. *)
Definition py_min (a b : Q) : Q := if Qltb b a then b else a.

(** Python's [float ** int] ([float_pow] of floatobject.c over libm's
    [pow]): [0.0] to a negative power raises ZeroDivisionError, and a result
    beyond the range of doubles (errno ERANGE) raises OverflowError.  Under
    round-to-nearest the power overflows exactly when its exact value is at
    least [2^1024 - 2^970], halfway between the largest double and [2^1024].
    Below that bound the exact power is returned: its rounding to a double is
    not modelled. *)
Definition float_overflow_bound : Q := inject_Z (2 ^ 1024 - 2 ^ 970).

Definition pow_overflow_msg : pyval :=
  PList [PInt 34; PStr (lit "Numerical result out of range")].

Definition float_pow (x : Q) (y : Z) : outcome Q :=
  if Qeq_bool x 0 && (y <? 0) then
    Raise (ZeroDivisionError (PStr (lit "0.0 cannot be raised to a negative power")))
  else
    let v := Qpower x y in
    if Qle_bool float_overflow_bound (Qabs v) then Raise (OverflowError pow_overflow_msg)
    else Return v.

(** [calculate_backoff]; [r] is the value drawn by [random.random()]. *)
Definition calculate_backoff (attempt : Z) (config : RetryConfig) (r : Q) : outcome Q :=
  match float_pow (backoff_factor config) attempt with
  | Raise e => Raise e
  | Return p =>
      let backoff := py_min p (max_backoff config) in
      Return (if jitter config then (backoff * ((1 # 2) + r))%Q else backoff)
  end.

Definition z_mem (z : Z) (l : list Z) : bool := existsb (Z.eqb z) l.

Definition should_retry (e : exn) (attempt : Z) (config : RetryConfig) : bool :=
  if attempt >=? max_retries config then false
  else match e with
       | AuthenticationError _ => false
       | QuotaExceededError _ => false
       | TimeoutException _ | NetworkError _ => true
       | HTTPStatusError s => z_mem s (retry_statuses config)
       | _ => false
       end.




(** [await asyncio.sleep(delay)] schedules a wake-up and raises nothing. *)
Definition asyncio_sleep (delay : Q) : option exn := None.

(** Observable effects. *)
Inductive event :=
| Post (payload : list (pystr * pyval))
| Sleep (seconds : Q).

(** The loop of [with_retry] / [with_retry_async]: [n] iterations of
    [range(config.max_retries + 1)] remain, [k] is the current attempt;
    [op k] is the k-th invocation of the wrapped function and [sleep d] the
    exception raised by the sleep call ([time.sleep] or [asyncio.sleep]), if
    any.  Returns the outcome, the number of invocations made and the
    trace. *)
Section Retry.
Context {A : Type}.
Variable config : RetryConfig.
Variable sleep : Q -> option exn.
Variable op : nat -> outcome A * list event.
Variable rnd : Z -> Q.

Fixpoint retry_loop (n k : nat) (last_exception : option exn)
  : outcome A * nat * list event :=
  match n with
  | O =>
      (* raise last_exception; raising None is a TypeError *)
      (Raise (match last_exception with
              | Some e => e
              | None => TypeError (PStr (lit "exceptions must derive from BaseException"))
              end), k, [])
  | S n' =>
      let '(r, ev) := op k in
      match r with
      | Return v => (Return v, S k, ev)
      | Raise e =>
          if negb (should_retry e (Z.of_nat k) config) then (Raise e, S k, ev)
          else if Z.of_nat k <? max_retries config then
            (* backoff_time = calculate_backoff(attempt, config); sleep(backoff_time) *)
            match calculate_backoff (Z.of_nat k) config (rnd (Z.of_nat k)) with
            | Raise e' => (Raise e', S k, ev)
            | Return d =>
                match sleep d with
                | Some e' => (Raise e', S k, ev)
                | None =>
                    let '(r', c, ev') := retry_loop n' (S k) (Some e) in
                    (r', c, ev ++ Sleep d :: ev')
                end
            end
          else
            let '(r', c, ev') := retry_loop n' (S k) (Some e) in
            (r', c, ev ++ ev')
      end
  end.

(** [with_retry(config)(func)], [sleep] being [time.sleep]. *)
Definition with_retry : outcome A * nat * list event :=
  retry_loop (Z.to_nat (max_retries config + 1)) 0 None.
End Retry.

(** [with_retry_async(config)(func)]. *)
Definition with_retry_async {A} (config : RetryConfig) (op : nat -> outcome A * list event)
    (rnd : Z -> Q) : outcome A * nat * list event :=
  with_retry config asyncio_sleep op rnd.

(* ------------------------------------------------------------------------- *)
(** * models.py *)

Inductive Voice :=
| IDERA | EMMA | ZAINAB | OSAGIE | WURA | JUDE | CHINENYE | TAYO
| REGINA | FEMI | ADAORA | UMAR | MARY | NONSO | REMI | ADAM.

Definition voice_value (v : Voice) : pystr :=
  lit match v with
  | IDERA => "Idera" | EMMA => "Emma" | ZAINAB => "Zainab" | OSAGIE => "Osagie"
  | WURA => "Wura" | JUDE => "Jude" | CHINENYE => "Chinenye" | TAYO => "Tayo"
  | REGINA => "Regina" | FEMI => "Femi" | ADAORA => "Adaora" | UMAR => "Umar"
  | MARY => "Mary" | NONSO => "Nonso" | REMI => "Remi" | ADAM => "Adam"
  end.

Inductive AudioFormat := MP3 | WAV | OPUS | FLAC.

Definition format_value (f : AudioFormat) : pystr :=
  lit match f with MP3 => "mp3" | WAV => "wav" | OPUS => "opus" | FLAC => "flac" end.

(** A non-None [voice] argument: a [Voice] member, or any other object,
    given by its [str()]. *)
Inductive voice_arg :=
| VoiceMember (v : Voice)
| VoiceObj (s : pystr).

Inductive format_arg :=
| FormatMember (f : AudioFormat)
| FormatObj (s : pystr).

(** The string placed in the payload ([voice.value] or [str(voice)]). *)
Definition voice_arg_str (v : voice_arg) : pystr :=
  match v with VoiceMember m => voice_value m | VoiceObj s => s end.

Definition format_arg_str (f : format_arg) : pystr :=
  match f with FormatMember m => format_value m | FormatObj s => s end.

(* ------------------------------------------------------------------------- *)
(** * Request handling shared by client.py and async_client.py *)

Definition payload := list (pystr * pyval).

Definition MAX_TEXT_LENGTH : Z := 2000.

(** The validation block at the top of [text_to_speech] (identical in
    both clients); [None] when it passes. *)
Definition validate_text (text : pystr) : option exn :=
  match text with
  | [] => Some (ValidationError (PStr (lit "Text cannot be empty")))
  | _ =>
      if Z.of_nat (length text) >? MAX_TEXT_LENGTH then
        Some (ValidationError (PStr (lit "Text length (" ++ z_str (Z.of_nat (length text))
               ++ lit ") exceeds maximum of " ++ z_str MAX_TEXT_LENGTH ++ lit " characters")))
      else None
  end.

(** Payload assembly: [payload = {"text": text}], then the optional keys in
    insertion order. *)
Definition build_payload (text : pystr) (voice : option voice_arg)
    (response_format : option format_arg) : payload :=
  [(lit "text", PStr text)]
  ++ match voice with Some v => [(lit "voice", PStr (voice_arg_str v))] | None => [] end
  ++ match response_format with
     | Some f => [(lit "response_format", PStr (format_arg_str f))]
     | None => [] end.

Record Response := {
  status_code : Z;
  resp_text : pystr;
  resp_json : option pyval;   (* None: response.json() raises *)
  content : list Byte.byte
}.

(** What the transport ([httpx] client post) produces. *)
Inductive transport_exn :=
| TTimeout (m : pystr)        (* httpx.TimeoutException *)
| TNetwork (m : pystr)        (* httpx.NetworkError *)
| TOtherRequest (m : pystr).  (* another httpx.RequestError *)

Inductive transport_outcome :=
| TResp (r : Response)
| TExn (e : transport_exn).

Definition exn_of_transport (e : transport_exn) : exn :=
  match e with
  | TTimeout m => TimeoutException m
  | TNetwork m => NetworkError m
  | TOtherRequest m => OtherRequestError m
  end.

(** [try: error_data = response.json(); error_msg = error_data.get("error",
    error_msg) except Exception: pass] *)
Definition error_field (r : Response) (default : pyval) : pyval :=
  match resp_json r with
  | Some (PDict d) => match dict_lookup (lit "error") d with Some v => v | None => default end
  | _ => default  (* not JSON, or .get on a non-dict raises *)
  end.

Definition quota_default_msg : pyval :=
  PStr (lit "Daily API quota exceeded. YarnGPT free tier limits: 80 TTS requests/day. Please wait 24 hours or upgrade your account at https://yarngpt.ai/account").

(** The status dispatch after the post. *)
Definition classify_response (response : Response) : outcome (list Byte.byte) :=
  let s := status_code response in
  if s =? 401 then Raise (AuthenticationError (PStr (lit "Invalid API key")))
  else if s =? 429 then Raise (QuotaExceededError (error_field response quota_default_msg))
  else if s =? 400 then
    Raise (ValidationError (error_field response (PStr (lit "Invalid request parameters"))))
  else if s =? 402 then
    Raise (PaymentRequiredError
      (PStr (lit "Payment required. Please check your account balance or subscription.")))
  else if s =? 403 then
    Raise (AuthenticationError
      (PStr (lit "Access forbidden. Please check your API key permissions.")))
  else if negb (s =? 200) then
    Raise (APIError (PStr (lit "API request failed with status " ++ z_str s ++ lit ": "
                           ++ resp_text response)))
  else Return (content response).

(** The [except httpx.TimeoutException] / [except httpx.RequestError]
    clauses around the request. *)
Definition wrap_request_errors {A} (r : outcome A) : outcome A :=
  match r with
  | Raise (TimeoutException m) => Raise (APIError (PStr (lit "Request timed out: " ++ m)))
  | Raise (NetworkError m) | Raise (OtherRequestError m) =>
      Raise (APIError (PStr (lit "Request failed: " ++ m)))
  | _ => r
  end.

(* ------------------------------------------------------------------------- *)
(** * client.py: [YarnGPT.text_to_speech] (no retry wrapper) *)

Definition text_to_speech (transport : payload -> transport_outcome)
    (text : pystr) (voice : option voice_arg) (response_format : option format_arg)
  : outcome (list Byte.byte) * list event :=
  match validate_text text with
  | Some e => (Raise e, [])
  | None =>
      let p := build_payload text voice response_format in
      (wrap_request_errors
         match transport p with
         | TResp r => classify_response r
         | TExn te => Raise (exn_of_transport te)
         end, [Post p])
  end.

(* ------------------------------------------------------------------------- *)
(** * async_client.py *)

(** [_make_request], the k-th invocation; [client_open] says whether the
    client was entered with [async with]. *)
Definition make_request (client_open : bool) (transport : nat -> payload -> transport_outcome)
    (p : payload) (k : nat) : outcome (list Byte.byte) * list event :=
  if negb client_open then
    (Raise (RuntimeError (PStr (lit "Client not initialized. Use 'async with AsyncYarnGPT() as client:' or call client._client manually."))), [])
  else
    match transport k p with
    | TResp r => (classify_response r, [Post p])
    | TExn te => (Raise (exn_of_transport te), [Post p])
    end.

(** [AsyncYarnGPT.text_to_speech]: [_make_request] is decorated with
    [@with_retry_async()], i.e. the default [RetryConfig()]. Returns the
    outcome, the number of invocations of [_make_request] and the trace. *)
Definition text_to_speech_async (client_open : bool)
    (transport : nat -> payload -> transport_outcome) (rnd : Z -> Q)
    (text : pystr) (voice : option voice_arg) (response_format : option format_arg)
  : outcome (list Byte.byte) * nat * list event :=
  match validate_text text with
  | Some e => (Raise e, O, [])
  | None =>
      let p := build_payload text voice response_format in
      let '(r, c, ev) := with_retry_async default_retry_config
                           (make_request client_open transport p) rnd in
      (wrap_request_errors r, c, ev)
  end.

(** [batch_text_to_speech], sequential branch: a for loop appending each
    result; an exception propagates out of the loop. *)
Fixpoint run_sequential {A} (f : pystr -> outcome A) (texts : list pystr)
  : outcome (list A) :=
  match texts with
  | [] => Return []
  | t :: ts =>
      match f t with
      | Raise e => Raise e
      | Return v =>
          match run_sequential f ts with
          | Return vs => Return (v :: vs)
          | Raise e => Raise e
          end
      end
  end.

(** [asyncio.gather] over the tasks without [return_exceptions]: the tasks run to
    completion in the order [completion] (a list of task indices); the first
    exception in that order is propagated, otherwise the results are
    returned in the order of the tasks. *)
Fixpoint first_failure {A} (rs : list (outcome A)) (completion : list nat) : option exn :=
  match completion with
  | [] => None
  | i :: c =>
      match nth_error rs i with
      | Some (Raise e) => Some e
      | _ => first_failure rs c
      end
  end.

Fixpoint collect {A} (rs : list (outcome A)) : outcome (list A) :=
  match rs with
  | [] => Return []
  | Raise e :: _ => Raise e
  | Return v :: rs' =>
      match collect rs' with
      | Return vs => Return (v :: vs)
      | Raise e => Raise e
      end
  end.

Definition gather {A} (rs : list (outcome A)) (completion : list nat) : outcome (list A) :=
  match first_failure rs completion with
  | Some e => Raise e
  | None => collect rs
  end.

(** [AsyncYarnGPT.batch_text_to_speech] over a deterministic transport
    [tr] (the answer depends only on the payload); [completion] is the
    order in which the concurrent tasks finish. *)
Definition batch_text_to_speech_async (client_open : bool)
    (tr : payload -> transport_outcome) (rnd : Z -> Q)
    (texts : list pystr) (voice : option voice_arg) (response_format : option format_arg)
    (concurrent : bool) (completion : list nat) : outcome (list (list Byte.byte)) :=
  let conv t := fst (fst (text_to_speech_async client_open (fun _ => tr) rnd t
                                               voice response_format)) in
  if concurrent then gather (map conv texts) completion
  else run_sequential conv texts.

(* ------------------------------------------------------------------------- *)
(** * Constructors and client state (client.py, async_client.py) *)

Definition DEFAULT_BASE_URL : pystr := lit "https://yarngpt.ai/api/v1".

Definition missing_key_msg : pyval :=
  PStr (lit "API key is required. Set YARNGPT_API_KEY environment variable or pass api_key parameter.").

Record ClientSettings := {
  api_key : pystr;
  base_url : pystr;
  timeout : Q
}.

(** [YarnGPT.__init__] up to the creation of the httpx client; [env_key] is
    the value of [config("YARNGPT_API_KEY", default="")] (the environment
    or the .env file). The parameters are [str] or [None]. *)
Definition yarngpt_init (env_key : pystr) (api_key_arg base_url_arg : option pystr)
    (timeout_arg : Q) : outcome ClientSettings :=
  let key := match api_key_arg with None => env_key | Some k => k end in
  match key with
  | [] => Raise (AuthenticationError missing_key_msg)   (* [if not api_key] *)
  | _ =>
      Return {| api_key := key;
                (* [base_url or self.DEFAULT_BASE_URL] *)
                base_url := match base_url_arg with
                            | Some ((_ :: _) as u) => u
                            | _ => DEFAULT_BASE_URL
                            end;
                timeout := timeout_arg |}
  end.

(** An [AsyncYarnGPT] object; [client_initialized] is [self._client is not None]. *)
Record AsyncYarnGPT := {
  settings : ClientSettings;
  retry_config : RetryConfig;
  client_initialized : bool
}.

(** [AsyncYarnGPT.__init__]: the same key and URL handling, then
    [self.retry_config = retry_config or RetryConfig()] (a [RetryConfig]
    instance is always truthy) and [self._client = None]. *)
Definition async_yarngpt_init (env_key : pystr) (api_key_arg base_url_arg : option pystr)
    (timeout_arg : Q) (retry_config_arg : option RetryConfig) : outcome AsyncYarnGPT :=
  match yarngpt_init env_key api_key_arg base_url_arg timeout_arg with
  | Raise e => Raise e
  | Return s =>
      Return {| settings := s;
                retry_config := match retry_config_arg with
                                | Some c => c
                                | None => default_retry_config
                                end;
                client_initialized := false |}
  end.

(** [__aenter__] creates the httpx client. *)
Definition aenter (c : AsyncYarnGPT) : AsyncYarnGPT :=
  {| settings := settings c; retry_config := retry_config c; client_initialized := true |}.

(** [close]: [if self._client: await self._client.aclose(); self._client = None]. *)
Definition aclose (c : AsyncYarnGPT) : AsyncYarnGPT :=
  {| settings := settings c; retry_config := retry_config c; client_initialized := false |}.

(** The method [AsyncYarnGPT.text_to_speech] called on [c]. *)
Definition async_text_to_speech (c : AsyncYarnGPT)
    (transport : nat -> payload -> transport_outcome) (rnd : Z -> Q)
    (text : pystr) (voice : option voice_arg) (response_format : option format_arg)
  : outcome (list Byte.byte) * nat * list event :=
  text_to_speech_async (client_initialized c) transport rnd text voice response_format.

(** The message of the [RuntimeError] raised by [_ensure_client]. *)
Definition runtime_msg : pyval :=
  PStr (lit "Client not initialized. Use 'async with AsyncYarnGPT() as client:' or call client._client manually.").

(* ------------------------------------------------------------------------- *)
(** * Batch helpers and file output (client.py, async_client.py) *)

(** A for loop over [xs] calling [f] and appending the results; an
    exception leaves the loop with the events produced so far. *)
Fixpoint run_seq {E B A} (f : B -> outcome A * list E) (xs : list B)
  : outcome (list A) * list E :=
  match xs with
  | [] => (Return [], [])
  | x :: xs' =>
      let '(r, ev) := f x in
      match r with
      | Raise e => (Raise e, ev)
      | Return v =>
          let '(r', ev') := run_seq f xs' in
          (match r' with Return vs => Return (v :: vs) | Raise e => Raise e end, ev ++ ev')
      end
  end.

(** [YarnGPT.batch_text_to_speech]. *)
Definition batch_text_to_speech (transport : payload -> transport_outcome)
    (texts : list pystr) (voice : option voice_arg) (response_format : option format_arg)
  : outcome (list (list Byte.byte)) * list event :=
  run_seq (fun text => text_to_speech transport text voice response_format) texts.

(** [enumerate(xs)] *)
Definition enumerate {B} (xs : list B) : list (nat * B) :=
  combine (seq 0 (length xs)) xs.

(** The extension chosen by the batch file helpers. *)
Definition file_ext (response_format : option format_arg) : pystr :=
  match response_format with
  | Some f => format_arg_str f   (* [fmt.value] for an [AudioFormat], else [str(fmt)] *)
  | None => lit "mp3"
  end.

(** [f"{filename_prefix}_{i}.{ext}"] *)
Definition batch_file_name (filename_prefix ext : pystr) (i : nat) : pystr :=
  filename_prefix ++ lit "_" ++ z_str (Z.of_nat i) ++ lit "." ++ ext.

(** Python dict item assignment [d[k] = v]: an existing key keeps its place. *)
Fixpoint dict_set {V} (k : pystr) (v : V) (d : list (pystr * V)) : list (pystr * V) :=
  match d with
  | [] => [(k, v)]
  | (k', v') :: d' => if pystr_eqb k k' then (k', v) :: d' else (k', v') :: dict_set k v d'
  end.

(** Paths are left abstract: [parent] is [Path.parent] and [join] is the
    [/] operator of pathlib. Directory creation and file writes are
    recorded as events and succeed. *)
Section Files.
Variable path : Type.
Variable parent : path -> path.
Variable join : path -> pystr -> path.

Inductive io_event :=
| Net (e : event)
| Mkdir (p : path)
| WriteFile (p : path) (data : list Byte.byte).

(** [YarnGPT.text_to_speech_file]. *)
Definition text_to_speech_file (transport : payload -> transport_outcome)
    (text : pystr) (output_path : path)
    (voice : option voice_arg) (response_format : option format_arg)
  : outcome path * list io_event :=
  let '(r, ev) := text_to_speech transport text voice response_format in
  match r with
  | Raise e => (Raise e, map Net ev)
  | Return audio_data =>
      (Return output_path,
       map Net ev ++ [Mkdir (parent output_path); WriteFile output_path audio_data])
  end.

(** [YarnGPT.batch_text_to_speech_files]. *)
Definition batch_text_to_speech_files (transport : payload -> transport_outcome)
    (texts : list pystr) (output_dir : path) (filename_prefix : pystr)
    (voice : option voice_arg) (response_format : option format_arg)
  : outcome (list path) * list io_event :=
  let ext := file_ext response_format in
  let '(r, ev) :=
    run_seq (fun '(i, text) =>
               text_to_speech_file transport text
                 (join output_dir (batch_file_name filename_prefix ext i))
                 voice response_format)
            (enumerate texts) in
  (r, Mkdir output_dir :: ev).

(** The loop of [YarnGPT.batch_text_to_speech_dict] over [text_dict.items()],
    with the [results] dict built so far. *)
Fixpoint dict_loop (transport : payload -> transport_outcome) (output_dir : path)
    (ext : pystr) (voice : option voice_arg) (response_format : option format_arg)
    (items : list (pystr * pystr)) (results : list (pystr * path))
  : outcome (list (pystr * path)) * list io_event :=
  match items with
  | [] => (Return results, [])
  | (filename, text) :: items' =>
      let '(r, ev) := text_to_speech_file transport text
                        (join output_dir (filename ++ lit "." ++ ext)) voice response_format in
      match r with
      | Raise e => (Raise e, ev)
      | Return p =>
          let '(r', ev') := dict_loop transport output_dir ext voice response_format items'
                              (dict_set filename p results) in
          (r', ev ++ ev')
      end
  end.

(** [YarnGPT.batch_text_to_speech_dict]; [text_dict] lists the items of the
    dict in insertion order. *)
Definition batch_text_to_speech_dict (transport : payload -> transport_outcome)
    (text_dict : list (pystr * pystr)) (output_dir : path)
    (voice : option voice_arg) (response_format : option format_arg)
  : outcome (list (pystr * path)) * list io_event :=
  let '(r, ev) := dict_loop transport output_dir (file_ext response_format) voice
                    response_format text_dict [] in
  (r, Mkdir output_dir :: ev).

(** [AsyncYarnGPT.text_to_speech_file] over a deterministic transport, its
    outcome only. *)
Definition text_to_speech_file_async (client_open : bool)
    (tr : payload -> transport_outcome) (rnd : Z -> Q)
    (text : pystr) (output_path : path)
    (voice : option voice_arg) (response_format : option format_arg) : outcome path :=
  match fst (fst (text_to_speech_async client_open (fun _ => tr) rnd text voice
                                       response_format)) with
  | Return _ => Return output_path
  | Raise e => Raise e
  end.

(** The sequential loop of [AsyncYarnGPT.batch_text_to_speech_files]. *)
Fixpoint run_sequential_items {B A} (f : B -> outcome A) (xs : list B) : outcome (list A) :=
  match xs with
  | [] => Return []
  | x :: xs' =>
      match f x with
      | Raise e => Raise e
      | Return v =>
          match run_sequential_items f xs' with
          | Return vs => Return (v :: vs)
          | Raise e => Raise e
          end
      end
  end.

(** [AsyncYarnGPT.batch_text_to_speech_files]: [asyncio.gather] over the
    tasks when [concurrent], else a for loop. *)
Definition batch_text_to_speech_files_async (client_open : bool)
    (tr : payload -> transport_outcome) (rnd : Z -> Q)
    (texts : list pystr) (output_dir : path) (filename_prefix : pystr)
    (voice : option voice_arg) (response_format : option format_arg)
    (concurrent : bool) (completion : list nat) : outcome (list path) :=
  let ext := file_ext response_format in
  let task := fun '(i, text) =>
    text_to_speech_file_async client_open tr rnd text
      (join output_dir (batch_file_name filename_prefix ext i)) voice response_format in
  if concurrent then gather (map task (enumerate texts)) completion
  else run_sequential_items task (enumerate texts).
End Files.

Arguments Net {path} e.
Arguments Mkdir {path} p.
Arguments WriteFile {path} p data.

(* ------------------------------------------------------------------------- *)
(** * models.py: [Voice.description] *)

Definition Voice_eq_dec : forall a b : Voice, {a = b} + {a <> b}.
Proof. decide equality. Defined.

(** The [descriptions] dict of the property. *)
Definition voice_descriptions : list (Voice * pystr) :=
  [(IDERA, lit "Melodic, gentle"); (EMMA, lit "Authoritative, deep");
   (ZAINAB, lit "Soothing, gentle"); (OSAGIE, lit "Smooth, calm");
   (WURA, lit "Young, sweet"); (JUDE, lit "Warm, confident");
   (CHINENYE, lit "Engaging, warm"); (TAYO, lit "Upbeat, energetic");
   (REGINA, lit "Mature, warm"); (FEMI, lit "Rich, reassuring");
   (ADAORA, lit "Warm, engaging"); (UMAR, lit "Calm, smooth");
   (MARY, lit "Energetic, youthful"); (NONSO, lit "Bold, resonant");
   (REMI, lit "Melodious, warm"); (ADAM, lit "Deep, clear")].

Fixpoint voice_get (v : Voice) (d : list (Voice * pystr)) (default : pystr) : pystr :=
  match d with
  | [] => default
  | (k, s) :: d' => if Voice_eq_dec v k then s else voice_get v d' default
  end.

(** [Voice.description]: [descriptions.get(self, "")]. *)
Definition description (v : Voice) : pystr := voice_get v voice_descriptions [].

(* ------------------------------------------------------------------------- *)
(** * cli.py: the texts of a plain-text input file of [batch] *)

(** [str.isspace] on one code point. *)
Definition py_isspace (c : N) : bool :=
  ((9 <=? c) && (c <=? 13))%N || ((28 <=? c) && (c <=? 32))%N
  || (c =? 133)%N || (c =? 160)%N || (c =? 5760)%N
  || ((8192 <=? c) && (c <=? 8202))%N || (c =? 8232)%N || (c =? 8233)%N
  || (c =? 8239)%N || (c =? 8287)%N || (c =? 12288)%N.

Fixpoint lstrip (s : pystr) : pystr :=
  match s with
  | [] => []
  | c :: s' => if py_isspace c then lstrip s' else s
  end.

(** [str.strip()] *)
Definition py_strip (s : pystr) : pystr := rev (lstrip (rev (lstrip s))).

(** Universal newlines of a file opened in text mode: ["\r\n"] and ["\r"]
    are read as ["\n"]. *)
Fixpoint translate_newlines (s : pystr) : pystr :=
  match s with
  | [] => []
  | c :: s' =>
      if (c =? 13)%N then
        match s' with
        | d :: s'' =>
            if (d =? 10)%N then 10%N :: translate_newlines s''
            else 10%N :: translate_newlines s'
        | [] => [10%N]
        end
      else c :: translate_newlines s'
  end.

(** The lines yielded by [for line in f], each with its ["\n"];
    [cur] is the current line, reversed. *)
Fixpoint split_lines (s : pystr) (cur : pystr) : list pystr :=
  match s with
  | [] => match cur with [] => [] | _ => [rev cur] end
  | c :: s' =>
      if (c =? 10)%N then rev (c :: cur) :: split_lines s' []
      else split_lines s' (c :: cur)
  end.

(** [texts = [line.strip() for line in f if line.strip()]] over the
    decoded contents of the file. *)
Definition read_text_lines (contents : pystr) : list pystr :=
  map py_strip
    (filter (fun line => match py_strip line with [] => false | _ => true end)
            (split_lines (translate_newlines contents) [])).

(* ------------------------------------------------------------------------- *)
(** * Auxiliary definitions for the further properties *)

(** The delay slept after a retried attempt [j] (0 when [calculate_backoff]
    raises, which ends the loop). *)
Definition backoff_delay (config : RetryConfig) (rnd : Z -> Q) (j : nat) : Q :=
  match calculate_backoff (Z.of_nat j) config (rnd (Z.of_nat j)) with
  | Return d => d
  | Raise _ => 0%Q
  end.

(** The time slept along a trace, in seconds. *)
Definition total_sleep (tr : list event) : Q :=
  fold_right (fun ev acc => match ev with Sleep d => (d + acc)%Q | Post _ => acc end) 0%Q tr.

(* ------------------------------------------------------------------------- *)
(** * Auxiliary definitions for the statements *)

Definition retryable_kind (config : RetryConfig) (e : exn) : bool :=
  match e with
  | TimeoutException _ | NetworkError _ => true
  | HTTPStatusError s => z_mem s (retry_statuses config)
  | _ => false
  end.


(** The reference decision of [shouldRetry], in the words of the spec. *)
Definition is_authentication (e : exn) : bool :=
  match e with AuthenticationError _ => true | _ => false end.
Definition is_quota_exceeded (e : exn) : bool :=
  match e with QuotaExceededError _ => true | _ => false end.
Definition is_network_kind (e : exn) : bool :=
  match e with TimeoutException _ | NetworkError _ => true | _ => false end.
(** The status code an exception carries ([httpx.HTTPStatusError] is the
    only exception class with a [response.status_code]). *)
Definition http_status (e : exn) : option Z :=
  match e with HTTPStatusError s => Some s | _ => None end.

Definition should_retry_ref (e : exn) (n : Z) (config : RetryConfig) : bool :=
  if n >=? max_retries config then false
  else if is_authentication e || is_quota_exceeded e then false
  else if is_network_kind e then true
  else match http_status e with
       | Some s => z_mem s (retry_statuses config)
       | None => false
       end.

(** The [error] field of a JSON-object body, when present. *)
Definition body_error (r : Response) : option pyval :=
  match resp_json r with
  | Some (PDict d) => dict_lookup (lit "error") d
  | _ => None
  end.

Definition is_net (te : transport_exn) : bool :=
  match te with TTimeout _ | TNetwork _ => true | TOtherRequest _ => false end.

(** A trace of posts of [p] from attempt [k] on, consecutive posts separated
    by the sleep [calculate_backoff] gives for the earlier attempt. *)
Inductive posts_with_backoff (config : RetryConfig) (rnd : Z -> Q) (p : payload)
  : nat -> list event -> Prop :=
| pwb_last : forall k, posts_with_backoff config rnd p k [Post p]
| pwb_step : forall k d tr,
    calculate_backoff (Z.of_nat k) config (rnd (Z.of_nat k)) = Return d ->
    posts_with_backoff config rnd p (S k) tr ->
    posts_with_backoff config rnd p k (Post p :: Sleep d :: tr).


Definition count_posts (tr : list event) : nat :=
  length (filter (fun ev => match ev with Post _ => true | Sleep _ => false end) tr).

(* ------------------------------------------------------------------------- *)
(** * Concrete inputs *)

Definition ok_response : Response :=
  {| status_code := 200; resp_text := []; resp_json := None;
     content := [Byte.x41] |}.

Definition resp_with_status (s : Z) : Response :=
  {| status_code := s; resp_text := lit "oops"; resp_json := None; content := [] |}.







Definition resp_429 : Response :=
  {| status_code := 429; resp_text := lit "{}";
     resp_json := Some (PDict [(lit "error", PStr (lit "Quota exceeded"))]);
     content := [] |}.

(* ------------------------------------------------------------------------- *)
(** * Facts about the retry policy and the executor loop *)

Section RetryFacts.
Context {A : Type}.
Variable config : RetryConfig.
Variable sleep : Q -> option exn.
Variable op : nat -> outcome A * list event.
Variable rnd : Z -> Q.
Hypothesis Hmax : 0 <= max_retries config.

Let N := Z.to_nat (max_retries config).

(** The backoff of every retried attempt is computed and slept without an
    exception. *)
Hypothesis Hok : forall j, (j < N)%nat ->
  exists d, calculate_backoff (Z.of_nat j) config (rnd (Z.of_nat j)) = Return d /\
            sleep d = None.

Lemma should_retry_kind : forall e a cfg,
  should_retry e a cfg = (a <? max_retries cfg) && retryable_kind cfg e.
Proof.
  intros e a cfg. unfold should_retry, Z.geb, Z.ltb.
  destruct (a ?= max_retries cfg); destruct e; reflexivity.
Qed.


Lemma with_retry_fuel : Z.to_nat (max_retries config + 1) = S N.
Proof. unfold N. rewrite Z2Nat.inj_add by lia. simpl. lia. Qed.







End RetryFacts.
(** Sanity checks on concrete inputs. *)

Example z_str_503 : z_str 503 = lit "503".
Proof. reflexivity. Qed.

Example z_str_neg : z_str (-40) = lit "-40".
Proof. reflexivity. Qed.

Example classify_503 :
  classify_response (resp_with_status 503)
  = Raise (APIError (PStr (lit "API request failed with status 503: oops"))).
Proof. reflexivity. Qed.

Example async_503_once :
  snd (fst (text_to_speech_async true (fun _ _ => TResp (resp_with_status 503))
                                 (fun _ => 0%Q) (lit "hi") None None)) = 1%nat.
Proof. reflexivity. Qed.

Example async_timeout_four :
  snd (fst (text_to_speech_async true (fun _ _ => TExn (TTimeout (lit "t")))
                                 (fun _ => 0%Q) (lit "hi") None None)) = 4%nat.
Proof. reflexivity. Qed.


Lemma Qltb_spec : forall a b, Qltb a b = true <-> (a < b)%Q.
Proof.
  intros a b. unfold Qltb. destruct (Qle_bool b a) eqn:E; simpl.
  - split; [discriminate|]. intros Hlt. apply Qle_bool_iff in E.
    exfalso. exact (Qlt_not_le _ _ Hlt E).
  - split; [|reflexivity]. intros _. apply Qnot_le_lt.
    intros Hle. apply Qle_bool_iff in Hle. congruence.
Qed.








(* ------------------------------------------------------------------------- *)
(** * Claims *)

(** C2: [should_retry e n cfg] equals the reference decision: false once
    [n >= maxRetries] (before any classification); false for Authentication
    and QuotaExceeded; true for network timeouts and failures; for an
    HTTP-status-carrying error, true iff the status is in [retry_statuses];
    false otherwise. *)
Theorem should_retry_reference : forall e n config,
  should_retry e n config = should_retry_ref e n config.
Proof.
  intros e n config. unfold should_retry, should_retry_ref.
  destruct (n >=? max_retries config); [reflexivity|].
  destruct e; reflexivity.
Qed.




Lemma validate_text_none : forall text,
  validate_text text = None <-> text <> [] /\ Z.of_nat (length text) <= MAX_TEXT_LENGTH.
Proof.
  intros [|c cs]; simpl.
  - split; [discriminate|]. intros [H _]. congruence.
  - change (Z.pos (Pos.of_succ_nat (length cs))) with (Z.of_nat (S (length cs))) in *.
    destruct (_ >? _) eqn:E.
    + split; [discriminate|]. intros [_ H]. apply Z.gtb_lt in E. lia.
    + split; [|reflexivity]. intros _. split; [discriminate|].
      rewrite Z.gtb_ltb, Z.ltb_ge in E. lia.
Qed.

Lemma validate_text_some : forall text e,
  validate_text text = Some e -> exists m, e = ValidationError m.
Proof.
  intros [|c cs] e H; simpl in H.
  - inversion H. eexists. reflexivity.
  - destruct (_ >? _); inversion H. eexists. reflexivity.
Qed.

Lemma retry_loop_count : forall A config sleep (op : nat -> outcome A * list event) rnd m k last,
  (k <= snd (fst (retry_loop config sleep op rnd m k last)))%nat /\
  (m <> O -> (S k <= snd (fst (retry_loop config sleep op rnd m k last)))%nat).
Proof.
  intros A config sleep op rnd. induction m as [|m IH]; intros k last; simpl.
  - split; [lia|]. intros H. congruence.
  - destruct (op k) as [[v|e] ev]; [simpl; lia|].
    destruct (negb (should_retry e (Z.of_nat k) config)); [simpl; lia|].
    destruct (IH (S k) (Some e)) as [H1 _].
    destruct (retry_loop config sleep op rnd m (S k) (Some e)) as [[r' c] ev'] eqn:Hl.
    simpl in H1. destruct (_ <? _); [|simpl; lia].
    destruct (calculate_backoff _ _ _) as [d|e']; [|simpl; lia].
    destruct (sleep d); simpl; lia.
Qed.

Lemma retry_loop_Forall : forall A config sleep (op : nat -> outcome A * list event) rnd
    (P : event -> Prop),
  (forall k, Forall P (snd (op k))) -> (forall d, P (Sleep d)) ->
  forall m k last, Forall P (snd (retry_loop config sleep op rnd m k last)).
Proof.
  intros A config sleep op rnd P Hop Hs. induction m as [|m IH]; intros k last; simpl.
  - constructor.
  - specialize (Hop k). destruct (op k) as [[v|e] ev]; [exact Hop|].
    destruct (negb (should_retry e (Z.of_nat k) config)); [exact Hop|].
    specialize (IH (S k) (Some e)).
    destruct (retry_loop config sleep op rnd m (S k) (Some e)) as [[r' c] ev'] eqn:Hl.
    simpl in IH. destruct (_ <? _); [|apply Forall_app; split; assumption].
    destruct (calculate_backoff _ _ _) as [d|e']; [|exact Hop].
    destruct (sleep d); [exact Hop|].
    apply Forall_app. split; [exact Hop|]. constructor; [apply Hs|exact IH].
Qed.

Lemma retry_loop_first : forall A config sleep (op : nat -> outcome A * list event) rnd m k last,
  exists rest, snd (retry_loop config sleep op rnd (S m) k last) = snd (op k) ++ rest.
Proof.
  intros. simpl. destruct (op k) as [[v|e] ev]; simpl.
  - exists []. rewrite app_nil_r. reflexivity.
  - destruct (negb _).
    + exists []. rewrite app_nil_r. reflexivity.
    + destruct (retry_loop config sleep op rnd m (S k) (Some e)) as [[r' c] ev'].
      destruct (_ <? _); [|eexists; reflexivity].
      destruct (calculate_backoff _ _ _) as [d|e']; [|exists []; rewrite app_nil_r; reflexivity].
      destruct (sleep d); [exists []; rewrite app_nil_r; reflexivity|eexists; reflexivity].
Qed.

Lemma error_field_body_error : forall r d,
  error_field r d = match body_error r with Some v => v | None => d end.
Proof.
  intros r d. unfold error_field, body_error.
  destruct (resp_json r) as [[]|]; reflexivity.
Qed.

(** C5: a 429 response is a [QuotaExceededError] whose message is the body's
    [error] field when present and the fixed daily-limit message otherwise;
    although 429 is in the default [retry_statuses], the error is never
    retried: [should_retry] is false for it at every attempt and under every
    config, the synchronous client posts once, and the asynchronous client
    invokes the request exactly once, without sleeping. *)
Theorem quota_429_not_retried : forall r,
  status_code r = 429 ->
  let m := match body_error r with Some v => v | None => quota_default_msg end in
  classify_response r = Raise (QuotaExceededError m) /\
  z_mem 429 (retry_statuses default_retry_config) = true /\
  (forall a config, should_retry (QuotaExceededError m) a config = false) /\
  (forall transport text voice fmt,
     validate_text text = None ->
     transport (build_payload text voice fmt) = TResp r ->
     text_to_speech transport text voice fmt
       = (Raise (QuotaExceededError m), [Post (build_payload text voice fmt)])) /\
  (forall transport rnd text voice fmt,
     validate_text text = None ->
     transport O (build_payload text voice fmt) = TResp r ->
     text_to_speech_async true transport rnd text voice fmt
       = (Raise (QuotaExceededError m), 1%nat, [Post (build_payload text voice fmt)])).
Proof.
  intros r Hs m.
  assert (Hc : classify_response r = Raise (QuotaExceededError m)).
  { unfold classify_response. rewrite Hs. simpl.
    rewrite error_field_body_error. reflexivity. }
  split; [exact Hc|]. split; [reflexivity|].
  split; [intros a config; unfold should_retry; destruct (_ >=? _); reflexivity|].
  split.
  - intros transport text voice fmt Hv Ht. unfold text_to_speech.
    rewrite Hv, Ht, Hc. reflexivity.
  - intros transport rnd text voice fmt Hv Ht. unfold text_to_speech_async.
    rewrite Hv. unfold with_retry_async, with_retry, make_request. simpl. rewrite Ht, Hc. reflexivity.
Qed.

(** C6: [text_to_speech] (both clients) fails with a [ValidationError] before
    any post exactly when the text is empty or longer than 2000 code points;
    a text of length 2000 passes validation and reaches the transport, a
    text of length 2001 is rejected. *)
Theorem text_validation : forall transport client_open transport' rnd text voice fmt,
  let invalid := text = [] \/ 2000 < Z.of_nat (length text) in
  (invalid ->
     (exists m, text_to_speech transport text voice fmt = (Raise (ValidationError m), [])) /\
     (exists m, text_to_speech_async client_open transport' rnd text voice fmt
                  = (Raise (ValidationError m), O, []))) /\
  (~ invalid ->
     snd (text_to_speech transport text voice fmt) = [Post (build_payload text voice fmt)] /\
     (1 <= snd (fst (text_to_speech_async client_open transport' rnd text voice fmt)))%nat) /\
  validate_text (repeat 65%N 2000) = None /\
  (exists m, validate_text (repeat 65%N 2001) = Some (ValidationError m)).
Proof.
  intros transport client_open transport' rnd text voice fmt invalid.
  split; [|split; [|split]].
  - intros Hinv. destruct (validate_text text) as [e|] eqn:Hv.
    + destruct (validate_text_some text e Hv) as [m ->].
      unfold text_to_speech, text_to_speech_async. rewrite Hv.
      split; eexists; reflexivity.
    + apply validate_text_none in Hv. unfold invalid, MAX_TEXT_LENGTH in *.
      destruct Hv as [H1 H2]. destruct Hinv as [H|H]; [congruence|lia].
  - intros Hinv.
    assert (Hv : validate_text text = None).
    { apply validate_text_none. unfold invalid, MAX_TEXT_LENGTH in *. split.
      - intros H. apply Hinv. left. exact H.
      - apply Z.nlt_ge. intros H. apply Hinv. right. exact H. }
    unfold text_to_speech, text_to_speech_async. rewrite Hv. split; [reflexivity|].
    unfold with_retry_async, with_retry.
    destruct (retry_loop default_retry_config asyncio_sleep
                (make_request client_open transport' (build_payload text voice fmt))
                rnd (Z.to_nat (max_retries default_retry_config + 1)) 0 None)
      as [[r c] ev] eqn:Hl.
    destruct (retry_loop_count _ default_retry_config asyncio_sleep
                (make_request client_open transport' (build_payload text voice fmt))
                rnd (Z.to_nat (max_retries default_retry_config + 1)) 0 None) as [_ H].
    rewrite Hl in H. simpl in *. apply H. discriminate.
  - reflexivity.
  - eexists. reflexivity.
Qed.

(** C7: [RetryConfig(...)] raises [ValueError] exactly when
    [max_retries < 0], [backoff_factor < 1] or [max_backoff < 0], and builds
    the config otherwise; [max_retries=-1], [backoff_factor=0.5] and
    [max_backoff=-10] each fail. *)
Theorem retry_config_validation : forall mr bf mb rs j,
  ((mr < 0 \/ (bf < 1)%Q \/ (mb < 0)%Q) <->
     exists m, make_retry_config mr bf mb rs j = Raise (ValueError m)) /\
  (0 <= mr -> (1 <= bf)%Q -> (0 <= mb)%Q ->
     make_retry_config mr bf mb rs j
       = Return {| max_retries := mr; backoff_factor := bf; max_backoff := mb;
                   retry_statuses := rs; jitter := j |}) /\
  (exists m, make_retry_config (-1) (2 # 1) (60 # 1) rs j = Raise (ValueError m)) /\
  (exists m, make_retry_config 3 (1 # 2) (60 # 1) rs j = Raise (ValueError m)) /\
  (exists m, make_retry_config 3 (2 # 1) (-10 # 1) rs j = Raise (ValueError m)).
Proof.
  intros mr bf mb rs j. unfold make_retry_config.
  split; [split|split; [|split; [|split]]].
  - intros Hc. destruct (Z.ltb_spec mr 0); [eexists; reflexivity|].
    destruct (Qltb bf 1) eqn:E1; [eexists; reflexivity|].
    destruct (Qltb mb 0) eqn:E2; [eexists; reflexivity|].
    exfalso. rewrite <- not_true_iff_false, Qltb_spec in E1, E2.
    destruct Hc as [Hc|[Hc|Hc]]; [lia|tauto|tauto].
  - intros [m Hm]. destruct (Z.ltb_spec mr 0); [left; lia|].
    destruct (Qltb bf 1) eqn:E1; [right; left; apply Qltb_spec; exact E1|].
    destruct (Qltb mb 0) eqn:E2; [right; right; apply Qltb_spec; exact E2|discriminate].
  - intros H1 H2 H3. destruct (Z.ltb_spec mr 0); [lia|].
    destruct (Qltb bf 1) eqn:E1.
    { apply Qltb_spec in E1. exfalso. exact (Qlt_not_le _ _ E1 H2). }
    destruct (Qltb mb 0) eqn:E2.
    { apply Qltb_spec in E2. exfalso. exact (Qlt_not_le _ _ E2 H3). }
    reflexivity.
  - eexists. reflexivity.
  - eexists. reflexivity.
  - eexists. reflexivity.
Qed.

Lemma run_sequential_collect : forall A (f : pystr -> outcome A) ts,
  run_sequential f ts = collect (map f ts).
Proof.
  intros A f ts. induction ts as [|t ts IH]; simpl; [reflexivity|].
  destruct (f t); [|reflexivity]. rewrite IH. reflexivity.
Qed.

Lemma map_Return_inj : forall A (l l' : list A),
  map (@Return A) l = map Return l' -> l = l'.
Proof.
  intros A l. induction l as [|x l IH]; intros [|y l'] H; simpl in H;
    try discriminate; [reflexivity|].
  inversion H. f_equal. apply IH. assumption.
Qed.

Lemma collect_Return : forall A (rs : list (outcome A)) l,
  collect rs = Return l <-> rs = map Return l.
Proof.
  intros A rs. induction rs as [|[v|e] rs IH]; intros l; simpl.
  - split; intros H; [inversion H; reflexivity|destruct l; [reflexivity|discriminate]].
  - destruct (collect rs) as [vs|e] eqn:Hc.
    + assert (Hrs : rs = map Return vs) by (apply IH; reflexivity). subst rs.
      split; intros H.
      * inversion H; subst. reflexivity.
      * destruct l as [|v' l]; [discriminate|]. simpl in H. inversion H.
        apply map_Return_inj in H2. subst. reflexivity.
    + split; intros H; [discriminate|].
      destruct l as [|v' l]; [discriminate|]. simpl in H. inversion H; subst.
      discriminate (proj2 (IH l) eq_refl).
  - split; intros H; [discriminate|]. destruct l; simpl in H; discriminate.
Qed.

Lemma first_failure_map_Return : forall A (l : list A) c,
  first_failure (map Return l) c = None.
Proof.
  intros A l c. induction c as [|i c IH]; simpl; [reflexivity|].
  rewrite nth_error_map. destruct (nth_error l i); exact IH.
Qed.

Lemma collect_failure : forall A (rs : list (outcome A)) i e,
  nth_error rs i = Some (Raise e) -> exists e', collect rs = Raise e'.
Proof.
  intros A rs. induction rs as [|r rs IH]; intros i e H; [destruct i; discriminate|].
  destruct i as [|i]; simpl in H.
  - inversion H; subst. exists e. reflexivity.
  - simpl. destruct r as [v|e0]; [|exists e0; reflexivity].
    destruct (IH i e H) as [e' He']. rewrite He'. exists e'. reflexivity.
Qed.

Lemma gather_sequential_agree : forall A (f : pystr -> outcome A) texts c l,
  (gather (map f texts) c = Return l ->
     map f texts = map Return l /\ run_sequential f texts = Return l) /\
  (run_sequential f texts = Return l -> gather (map f texts) c = Return l).
Proof.
  intros A f texts c l. rewrite run_sequential_collect. unfold gather. split.
  - destruct (first_failure (map f texts) c); [discriminate|].
    intros H. split; [apply collect_Return; exact H|exact H].
  - intros H. pose proof H as H'. apply collect_Return in H'. rewrite H'.
    rewrite first_failure_map_Return. rewrite <- H'. exact H.
Qed.

Lemma batch_item_failure : forall A (f : pystr -> outcome A) texts (c : list nat)
    (concurrent : bool),
  (exists i t e, nth_error texts i = Some t /\ f t = Raise e) ->
  exists e, (if concurrent then gather (map f texts) c else run_sequential f texts) = Raise e.
Proof.
  intros A f texts c concurrent [i [t [e [Hi Hf]]]].
  assert (Hn : nth_error (map f texts) i = Some (Raise e))
    by (rewrite nth_error_map, Hi; simpl; rewrite Hf; reflexivity).
  destruct (collect_failure _ _ _ _ Hn) as [e' He'].
  destruct concurrent.
  - unfold gather. destruct (first_failure _ c) as [e0|]; [exists e0; reflexivity|].
    exists e'. exact He'.
  - rewrite run_sequential_collect. exists e'. exact He'.
Qed.

Lemma map_Return_nth : forall A B (f : B -> outcome A) texts l i t,
  map f texts = map Return l -> nth_error texts i = Some t ->
  exists v, nth_error l i = Some v /\ f t = Return v.
Proof.
  intros A B f texts l i t Hm Hi.
  assert (H : nth_error (map f texts) i = nth_error (map Return l) i) by (rewrite Hm; reflexivity).
  rewrite !nth_error_map, Hi in H. simpl in H.
  destruct (nth_error l i) as [v|]; inversion H. exists v. split; [reflexivity|assumption].
Qed.

(** C10: no membership check is made on [voice] or [response_format]: for a
    text that passes validation, whatever the voice and format arguments
    (members of the enums or arbitrary objects), the request is sent with
    the payload holding [text], the voice's string under [voice] and the
    format's string under [response_format], a [None] argument leaving its
    key out; both clients post this payload and nothing else. *)
Theorem payload_voice_format_unchecked :
  forall transport client_open transport' rnd text voice fmt,
  validate_text text = None ->
  let p := build_payload text voice fmt in
  snd (text_to_speech transport text voice fmt) = [Post p] /\
  Forall (fun ev => ev = Post p \/ exists d, ev = Sleep d)
         (snd (text_to_speech_async client_open transport' rnd text voice fmt)) /\
  (client_open = true ->
     exists rest, snd (text_to_speech_async client_open transport' rnd text voice fmt)
                  = Post p :: rest) /\
  dict_lookup (lit "text") p = Some (PStr text) /\
  dict_lookup (lit "voice") p = option_map (fun v => PStr (voice_arg_str v)) voice /\
  dict_lookup (lit "response_format") p
    = option_map (fun f => PStr (format_arg_str f)) fmt.
Proof.
  intros transport client_open transport' rnd text voice fmt Hv p.
  unfold text_to_speech, text_to_speech_async. rewrite Hv. fold p.
  split; [reflexivity|]. split; [|split; [|split; [|split]]].
  - unfold with_retry_async, with_retry.
    assert (Hop : forall k, Forall (fun ev => ev = Post p \/ exists d, ev = Sleep d)
                                   (snd (make_request client_open transport' p k))).
    { intros k. unfold make_request. destruct client_open; simpl; [|constructor].
      destruct (transport' k p); repeat constructor; left; reflexivity. }
    pose proof (retry_loop_Forall _ default_retry_config asyncio_sleep (make_request client_open transport' p)
                  rnd _ Hop (fun d => or_intror (ex_intro _ d eq_refl))
                  (Z.to_nat (max_retries default_retry_config + 1)) 0 None) as HF.
    destruct (retry_loop default_retry_config asyncio_sleep (make_request client_open transport' p) rnd
                (Z.to_nat (max_retries default_retry_config + 1)) 0 None)
      as [[r c] ev]. exact HF.
  - intros ->. unfold with_retry_async, with_retry.
    destruct (retry_loop_first _ default_retry_config asyncio_sleep (make_request true transport' p)
                rnd 3 0 None) as [rest Hr].
    change (Z.to_nat (max_retries default_retry_config + 1)) with (S 3).
    destruct (retry_loop default_retry_config asyncio_sleep (make_request true transport' p) rnd (S 3) 0 None)
      as [[r c] ev]. simpl snd in Hr |- *. rewrite Hr.
    unfold make_request. simpl. destruct (transport' 0%nat p); exists rest; reflexivity.
  - reflexivity.
  - unfold p, build_payload. destruct voice, fmt; reflexivity.
  - unfold p, build_payload. destruct voice, fmt; reflexivity.
Qed.

(** C1 (as amended): the synchronous client never retries: a conversion call
    posts at most once and never sleeps, a transport failure surfacing as an
    [APIError]. In the asynchronous client, transport timeouts and network
    failures are retried: when every post fails that way, more than one post
    is made, consecutive posts are separated by the backoff sleep
    [calculate_backoff] computes for the earlier attempt, and the [APIError]
    that wraps the failure of the last post is raised. A first response with
    status 400, 401, 402, 403 or 429 surfaces at once: one post, no sleep. *)
Theorem request_retry_by_client :
  (forall transport text voice fmt,
     snd (text_to_speech transport text voice fmt) = [] \/
     snd (text_to_speech transport text voice fmt) = [Post (build_payload text voice fmt)]) /\
  (forall transport text voice fmt te,
     validate_text text = None ->
     transport (build_payload text voice fmt) = TExn te ->
     exists m, fst (text_to_speech transport text voice fmt) = Raise (APIError m)) /\
  (forall transport rnd text voice fmt,
     validate_text text = None ->
     (forall k, exists te, transport k (build_payload text voice fmt) = TExn te /\
                           is_net te = true) ->
     let res := text_to_speech_async true transport rnd text voice fmt in
     posts_with_backoff default_retry_config rnd (build_payload text voice fmt) 0 (snd res) /\
     snd (fst res) = count_posts (snd res) /\
     (2 <= snd (fst res))%nat /\
     (exists te, transport (pred (snd (fst res))) (build_payload text voice fmt) = TExn te /\
                 fst (fst res) = wrap_request_errors (Raise (exn_of_transport te))) /\
     exists m, fst (fst res) = Raise (APIError m)) /\
  (forall transport rnd text voice fmt r,
     validate_text text = None ->
     transport O (build_payload text voice fmt) = TResp r ->
     In (status_code r) [400; 401; 402; 403; 429] ->
     text_to_speech_async true transport rnd text voice fmt
       = (classify_response r, 1%nat, [Post (build_payload text voice fmt)])).
Proof.
  split; [|split; [|split]].
  - intros transport text voice fmt. unfold text_to_speech.
    destruct (validate_text text); [left|right]; reflexivity.
  - intros transport text voice fmt te Hv Ht. unfold text_to_speech.
    rewrite Hv, Ht. destruct te; simpl; eexists; reflexivity.
  - intros transport rnd text voice fmt Hv Hall res. subst res.
    destruct (Hall 0%nat) as [t0 [E0 N0]]. destruct (Hall 1%nat) as [t1 [E1 N1]].
    destruct (Hall 2%nat) as [t2 [E2 N2]]. destruct (Hall 3%nat) as [t3 [E3 N3]].
    unfold text_to_speech_async. rewrite Hv. unfold with_retry_async, with_retry, make_request. simpl.
    rewrite E0, E1, E2, E3.
    destruct t0; try discriminate N0; destruct t1; try discriminate N1;
    destruct t2; try discriminate N2; destruct t3; try discriminate N3; simpl;
    (split; [repeat (apply pwb_step; [reflexivity|]); apply pwb_last|
     split; [reflexivity|split; [repeat constructor|split; [|eexists; reflexivity]]]]);
    simpl; first [rewrite E3 | rewrite E2 | rewrite E1 | rewrite E0];
    eexists; (split; [reflexivity|reflexivity]).
  - intros transport rnd text voice fmt r Hv Ht Hin.
    unfold text_to_speech_async. rewrite Hv. unfold with_retry_async, with_retry, make_request. simpl.
    rewrite Ht.
    destruct Hin as [H|[H|[H|[H|[H|[]]]]]]; unfold classify_response; rewrite <- H;
      reflexivity.
Qed.

(** C8: with a deterministic transport, the concurrent batch returns one
    result per text, aligned by index with the input, whatever the order in
    which the tasks complete, and this list is exactly what the sequential
    batch returns; conversely, a sequential success is also a concurrent
    success with the same list. *)
Theorem batch_concurrent_matches_sequential :
  forall client_open tr rnd texts voice fmt completion l,
  let conv t := fst (fst (text_to_speech_async client_open (fun _ => tr) rnd t voice fmt)) in
  (batch_text_to_speech_async client_open tr rnd texts voice fmt true completion = Return l ->
     length l = length texts /\
     (forall i t, nth_error texts i = Some t ->
        exists v, nth_error l i = Some v /\ conv t = Return v) /\
     batch_text_to_speech_async client_open tr rnd texts voice fmt false completion
       = Return l) /\
  (batch_text_to_speech_async client_open tr rnd texts voice fmt false completion = Return l ->
     batch_text_to_speech_async client_open tr rnd texts voice fmt true completion = Return l).
Proof.
  intros client_open tr rnd texts voice fmt completion l conv.
  unfold batch_text_to_speech_async. fold conv.
  destruct (gather_sequential_agree _ conv texts completion l) as [H1 H2].
  split; [|exact H2].
  intros Hg. destruct (H1 Hg) as [Hm Hs].
  split; [|split; [|exact Hs]].
  - rewrite <- (length_map conv texts), Hm. symmetry. apply length_map.
  - intros i t Hi. exact (map_Return_nth _ _ conv texts l i t Hm Hi).
Qed.

(** C9 (as amended): there is no result-collecting batch variant: in both the
    concurrent and the sequential mode, as soon as one item's conversion
    fails, the whole batch call raises an exception instead of returning a
    per-item mapping. *)
Theorem batch_raises_on_partial_failure :
  forall client_open tr rnd texts voice fmt (concurrent : bool) completion,
  let conv t := fst (fst (text_to_speech_async client_open (fun _ => tr) rnd t voice fmt)) in
  (exists i t e, nth_error texts i = Some t /\ conv t = Raise e) ->
  exists e, batch_text_to_speech_async client_open tr rnd texts voice fmt concurrent completion
            = Raise e.
Proof.
  intros client_open tr rnd texts voice fmt concurrent completion conv Hf.
  unfold batch_text_to_speech_async. fold conv.
  exact (batch_item_failure _ conv texts completion concurrent Hf).
Qed.

(* ------------------------------------------------------------------------- *)
(** * Further properties of the code *)

Section RetryTrace.
Context {A : Type}.
Variable config : RetryConfig.
Variable sleep : Q -> option exn.
Variable op : nat -> outcome A * list event.
Variable rnd : Z -> Q.
Hypothesis Hmax : 0 <= max_retries config.
Hypothesis Hok : forall j, (j < Z.to_nat (max_retries config))%nat ->
  exists d, calculate_backoff (Z.of_nat j) config (rnd (Z.of_nat j)) = Return d /\
            sleep d = None.

Lemma retry_loop_trace : forall m k last r c tr,
  (k + m = S (Z.to_nat (max_retries config)))%nat ->
  (k <= Z.to_nat (max_retries config))%nat ->
  retry_loop config sleep op rnd m k last = (r, c, tr) ->
  (k < c <= S (Z.to_nat (max_retries config)))%nat /\
  r = fst (op (pred c)) /\
  (forall j, (k <= j < pred c)%nat ->
     exists e, fst (op j) = Raise e /\ should_retry e (Z.of_nat j) config = true) /\
  tr = flat_map (fun j => snd (op j) ++ [Sleep (backoff_delay config rnd j)])
                (seq k (pred c - k)) ++ snd (op (pred c)).
Proof.
  induction m as [|m IH]; intros k last r c tr Hm Hk Hl; [lia|].
  cbn [retry_loop] in Hl. destruct (op k) as [r0 ev] eqn:Hop. destruct r0 as [v|e].
  - inversion Hl; subst. simpl. rewrite Nat.sub_diag, Hop. simpl.
    split; [lia|]. split; [reflexivity|]. split; [intros; lia|reflexivity].
  - destruct (should_retry e (Z.of_nat k) config) eqn:Hs; cbn [negb] in Hl.
    + assert (Hlt : (Z.of_nat k <? max_retries config) = true).
      { rewrite should_retry_kind in Hs. apply andb_true_iff in Hs. apply Hs. }
      rewrite Hlt in Hl. apply Z.ltb_lt in Hlt.
      destruct (Hok k) as [d [Hd Hsl]]; [lia|]. rewrite Hd, Hsl in Hl.
      destruct (retry_loop config sleep op rnd m (S k) (Some e)) as [[r' c'] ev'] eqn:Hl'.
      inversion Hl; subst r' c tr.
      destruct (IH (S k) (Some e) r c' ev') as [H1 [H2 [H3 H4]]]; auto; try lia.
      split; [lia|]. split; [exact H2|]. split.
      * intros j Hj. destruct (Nat.eq_dec j k) as [->|Hne].
        -- exists e. rewrite Hop. split; [reflexivity|exact Hs].
        -- apply H3. lia.
      * replace (pred c' - k)%nat with (S (pred c' - S k)) by lia.
        cbn [seq flat_map]. rewrite Hop, H4. cbn [snd].
        replace (backoff_delay config rnd k) with d
          by (unfold backoff_delay; rewrite Hd; reflexivity).
        rewrite <- !app_assoc. cbn [app]. reflexivity.
    + inversion Hl; subst. simpl. rewrite Nat.sub_diag, Hop. simpl.
      split; [lia|]. split; [reflexivity|]. split; [intros; lia|reflexivity].
Qed.

Lemma with_retry_trace : forall r c tr,
  with_retry config sleep op rnd = (r, c, tr) ->
  (1 <= c <= S (Z.to_nat (max_retries config)))%nat /\
  r = fst (op (pred c)) /\
  (forall j, (j < pred c)%nat ->
     exists e, fst (op j) = Raise e /\ should_retry e (Z.of_nat j) config = true) /\
  tr = flat_map (fun j => snd (op j) ++ [Sleep (backoff_delay config rnd j)])
                (seq 0 (pred c)) ++ snd (op (pred c)).
Proof.
  intros r c tr H. unfold with_retry in H. rewrite (with_retry_fuel config Hmax) in H.
  destruct (retry_loop_trace (S (Z.to_nat (max_retries config))) 0 None r c tr)
    as [H1 [H2 [H3 H4]]]; [lia|lia|exact H|].
  rewrite Nat.sub_0_r in H4. split; [lia|]. split; [exact H2|]. split; [|exact H4].
  intros j Hj. apply H3. lia.
Qed.
End RetryTrace.

(** The backoffs of the default [RetryConfig()] on attempts 0, 1 and 2. *)
Lemma default_backoff : forall (j : nat) r, (j <= 2)%nat ->
  calculate_backoff (Z.of_nat j) default_retry_config r
    = Return (inject_Z (2 ^ Z.of_nat j) * ((1 # 2) + r))%Q.
Proof.
  intros j r Hj. destruct j as [|[|[|j]]]; [reflexivity|reflexivity|reflexivity|lia].
Qed.

Lemma default_backoff_range : forall (j : nat) r,
  (j <= 2)%nat -> (0 <= r)%Q -> (r < 1)%Q ->
  (0 <= backoff_delay default_retry_config (fun _ => r) j)%Q /\
  (backoff_delay default_retry_config (fun _ => r) j <= (3#2) * inject_Z (2 ^ Z.of_nat j))%Q.
Proof.
  intros j r Hj H0 H1. unfold backoff_delay. rewrite default_backoff by exact Hj.
  assert (Hp : (0 <= inject_Z (2 ^ Z.of_nat j))%Q).
  { rewrite <- (Zle_Qle 0). apply Z.pow_nonneg. lia. }
  split; nra.
Qed.

(** X4: whatever the transport does, one call of the async text_to_speech
    (validation, then _make_request under the default RetryConfig) posts
    at most 4 requests and, for draws in [0, 1), sleeps at most 10.5
    seconds in total. *)
Theorem async_call_budget : forall client_open transport rnd text voice fmt,
  (forall z, 0 <= rnd z /\ rnd z < 1)%Q ->
  (count_posts (snd (text_to_speech_async client_open transport rnd text voice fmt)) <= 4)%nat /\
  (total_sleep (snd (text_to_speech_async client_open transport rnd text voice fmt)) <= 21 # 2)%Q.
Proof.
  intros client_open transport rnd text voice fmt Hr.
  unfold text_to_speech_async. destruct (validate_text text) as [e|].
  - unfold count_posts, total_sleep. simpl. split; [lia|]. unfold Qle; simpl; lia.
  - set (p := build_payload text voice fmt).
    destruct (with_retry_async default_retry_config (make_request client_open transport p) rnd)
      as [[r c] ev] eqn:Hw.
    unfold with_retry_async in Hw.
    apply with_retry_trace in Hw; [|discriminate|].
    2:{ intros j Hj. change (Z.to_nat (max_retries default_retry_config)) with 3%nat in Hj.
        rewrite default_backoff by lia. eexists. split; reflexivity. }
    destruct Hw as [Hc [_ [_ Htr]]]. simpl snd. subst ev.
    change (S (Z.to_nat (max_retries default_retry_config))) with 4%nat in Hc.
    assert (B : forall j, (j <= 2)%nat ->
              (0 <= backoff_delay default_retry_config rnd j)%Q /\
              (backoff_delay default_retry_config rnd j <= (3#2) * inject_Z (2 ^ Z.of_nat j))%Q).
    { intros j Hj. destruct (Hr (Z.of_nat j)) as [H0 H1].
      pose proof (default_backoff_range j (rnd (Z.of_nat j)) Hj H0 H1) as HB.
      unfold backoff_delay in HB |- *. exact HB. }
    destruct (B 0%nat) as [B0 B0']; [lia|]. destruct (B 1%nat) as [B1 B1']; [lia|].
    destruct (B 2%nat) as [B2 B2']; [lia|].
    change (inject_Z (2 ^ Z.of_nat 0)) with (1#1) in B0'.
    change (inject_Z (2 ^ Z.of_nat 1)) with (2#1) in B1'.
    change (inject_Z (2 ^ Z.of_nat 2)) with (4#1) in B2'.
    unfold make_request.
    destruct c as [|[|[|[|[|c]]]]]; try lia; simpl pred; simpl seq; simpl flat_map;
    destruct client_open; simpl negb; cbv iota;
    repeat match goal with |- context [transport ?j p] => destruct (transport j p) end;
    unfold count_posts, total_sleep; simpl;
    set (b0 := backoff_delay default_retry_config rnd 0) in *;
    set (b1 := backoff_delay default_retry_config rnd 1) in *;
    set (b2 := backoff_delay default_retry_config rnd 2) in *;
    (split; [lia|lra]).
Qed.

(** X7: for valid text, an AsyncYarnGPT that was just constructed or was
    closed raises the RuntimeError of _ensure_client after one attempt and
    posts nothing, while after __aenter__ at least one request is posted. *)
Theorem unopened_client_runtime_error : forall c transport rnd text voice fmt,
  validate_text text = None ->
  async_text_to_speech (aclose c) transport rnd text voice fmt
    = (Raise (RuntimeError runtime_msg), 1%nat, []) /\
  (forall env key url t rc c0, async_yarngpt_init env key url t rc = Return c0 ->
     async_text_to_speech c0 transport rnd text voice fmt
       = (Raise (RuntimeError runtime_msg), 1%nat, [])) /\
  (1 <= count_posts (snd (async_text_to_speech (aenter c) transport rnd text voice fmt)))%nat.
Proof.
  intros c transport rnd text voice fmt Hv.
  split; [|split].
  - unfold async_text_to_speech, text_to_speech_async. rewrite Hv. reflexivity.
  - intros env key url t rc c0 Hi. unfold async_yarngpt_init in Hi.
    destruct (yarngpt_init env key url t); inversion Hi; subst.
    unfold async_text_to_speech, text_to_speech_async. rewrite Hv. reflexivity.
  - unfold async_text_to_speech, text_to_speech_async. rewrite Hv. simpl client_initialized.
    set (p := build_payload text voice fmt).
    destruct (retry_loop_first _ default_retry_config asyncio_sleep (make_request true transport p) rnd 3 0 None)
      as [rest Hrest].
    unfold with_retry_async, with_retry.
    change (Z.to_nat (max_retries default_retry_config + 1)) with 4%nat.
    destruct (retry_loop default_retry_config asyncio_sleep (make_request true transport p) rnd 4 0 None)
      as [[r k] ev] eqn:Hl.
    simpl in Hrest |- *. subst ev. unfold make_request. simpl.
    destruct (transport 0%nat p); simpl; unfold count_posts; simpl; lia.
Qed.

Lemma run_seq_spec : forall E B A (f : B -> outcome A * list E) xs,
  match fst (run_seq f xs) with
  | Return vs => map Return vs = map (fun x => fst (f x)) xs /\
      snd (run_seq f xs) = flat_map (fun x => snd (f x)) xs
  | Raise e => exists i x, nth_error xs i = Some x /\ fst (f x) = Raise e /\
      (forall j y, (j < i)%nat -> nth_error xs j = Some y -> exists v, fst (f y) = Return v) /\
      snd (run_seq f xs) = flat_map (fun x => snd (f x)) (firstn (S i) xs)
  end.
Proof.
  intros E B A f. induction xs as [|x xs IH]; simpl; [split; reflexivity|].
  destruct (f x) as [[v|e] ev] eqn:Hf.
  - destruct (run_seq f xs) as [[vs|e] ev'] eqn:Hr; simpl in IH |- *.
    + destruct IH as [H1 H2]. rewrite H1, H2. split; reflexivity.
    + destruct IH as [i [y [Hi [Hy [Hpre Htr]]]]].
      exists (S i), y. split; [exact Hi|]. split; [exact Hy|]. split.
      * intros [|j] z Hj Hz; simpl in Hz.
        -- inversion Hz; subst. exists v. rewrite Hf. reflexivity.
        -- apply (Hpre j z); [lia|exact Hz].
      * rewrite Htr. reflexivity.
  - simpl. exists 0%nat, x. rewrite Hf. split; [reflexivity|]. split; [reflexivity|].
    split; [intros; lia|]. simpl. rewrite app_nil_r. reflexivity.
Qed.

Lemma nth_error_enumerate_from : forall B (xs : list B) k i,
  nth_error (combine (seq k (length xs)) xs) i = option_map (fun t => (k + i, t)%nat) (nth_error xs i).
Proof.
  intros B xs. induction xs as [|x xs IH]; intros k [|i]; simpl; try reflexivity.
  - rewrite Nat.add_0_r. reflexivity.
  - rewrite IH. destruct (nth_error xs i); simpl; [|reflexivity]. do 2 f_equal. lia.
Qed.

Lemma nth_error_enumerate : forall B (xs : list B) i,
  nth_error (enumerate xs) i = option_map (fun t => (i, t)) (nth_error xs i).
Proof. intros. unfold enumerate. apply nth_error_enumerate_from. Qed.

Lemma map_fst_enumerate_from : forall B (xs : list B) k,
  map fst (combine (seq k (length xs)) xs) = seq k (length xs).
Proof.
  intros B xs. induction xs as [|x xs IH]; intros k; simpl; [reflexivity|]. rewrite IH. reflexivity.
Qed.

Lemma in_firstn_nth : forall B (l : list B) n j y,
  (j < n)%nat -> nth_error l j = Some y -> In y (firstn n l).
Proof.
  intros B l n j y Hj Hy. apply nth_error_In with (n := j).
  rewrite nth_error_firstn. apply Nat.ltb_lt in Hj. rewrite Hj. exact Hy.
Qed.

Lemma text_to_speech_file_spec : forall path (parent : path -> path)
    transport text output_path voice fmt,
  match fst (text_to_speech transport text voice fmt) with
  | Return a =>
      fst (text_to_speech_file path parent transport text output_path voice fmt) = Return output_path /\
      In (WriteFile output_path a) (snd (text_to_speech_file path parent transport text output_path voice fmt))
  | Raise e =>
      fst (text_to_speech_file path parent transport text output_path voice fmt) = Raise e
  end.
Proof.
  intros. unfold text_to_speech_file.
  destruct (text_to_speech transport text voice fmt) as [[a|e] ev]; simpl; [|reflexivity].
  split; [reflexivity|]. apply in_or_app. right. simpl. auto.
Qed.

(** X8: the sync batch_text_to_speech either converts every text, in input
    order, with the events of each call in turn, or raises the exception of
    the first failing text, after converting every earlier text and with
    no event from a later text. *)
Theorem batch_text_to_speech_fail_fast : forall transport texts voice fmt,
  match fst (batch_text_to_speech transport texts voice fmt) with
  | Return audios =>
      map Return audios = map (fun t => fst (text_to_speech transport t voice fmt)) texts /\
      snd (batch_text_to_speech transport texts voice fmt)
        = flat_map (fun t => snd (text_to_speech transport t voice fmt)) texts
  | Raise e => exists i t, nth_error texts i = Some t /\
      fst (text_to_speech transport t voice fmt) = Raise e /\
      (forall j u, (j < i)%nat -> nth_error texts j = Some u ->
         exists a, fst (text_to_speech transport u voice fmt) = Return a) /\
      snd (batch_text_to_speech transport texts voice fmt)
        = flat_map (fun t => snd (text_to_speech transport t voice fmt)) (firstn (S i) texts)
  end.
Proof.
  intros. unfold batch_text_to_speech. apply run_seq_spec.
Qed.

Lemma nth_error_map_seq : forall B (g : nat -> B) n i,
  (i < n)%nat -> nth_error (map g (seq 0 n)) i = Some (g i).
Proof.
  intros B g n i Hi. rewrite nth_error_map, nth_error_seq.
  apply Nat.ltb_lt in Hi. rewrite Hi. reflexivity.
Qed.

(** X9: batch_text_to_speech_files either returns the paths
    output_dir / prefix_i.ext for i = 0 .. n-1 and has written the audio of
    text i to the i-th path, or raises the error of the first failing text
    after writing the audio of every earlier text to its path. *)
Theorem batch_files_written_in_order : forall path parent join transport texts
    output_dir prefix voice fmt,
  let name := fun i => join output_dir (batch_file_name prefix (file_ext fmt) i) in
  let res := batch_text_to_speech_files path parent join transport texts output_dir
               prefix voice fmt in
  match fst res with
  | Return paths =>
      paths = map name (seq 0 (length texts)) /\
      (forall i t, nth_error texts i = Some t ->
         exists a, fst (text_to_speech transport t voice fmt) = Return a /\
                   In (WriteFile (name i) a) (snd res))
  | Raise e => exists i t, nth_error texts i = Some t /\
      fst (text_to_speech transport t voice fmt) = Raise e /\
      (forall j u, (j < i)%nat -> nth_error texts j = Some u ->
         exists a, fst (text_to_speech transport u voice fmt) = Return a /\
                   In (WriteFile (name j) a) (snd res))
  end.
Proof.
  intros path parent join transport texts output_dir prefix voice fmt name res.
  subst res. unfold batch_text_to_speech_files.
  set (g := fun '(i, text) => text_to_speech_file path parent transport text
              (join output_dir (batch_file_name prefix (file_ext fmt) i)) voice fmt).
  pose proof (run_seq_spec _ _ _ g (enumerate texts)) as Hs.
  destruct (run_seq g (enumerate texts)) as [r ev] eqn:Hr. simpl fst in Hs |- *.
  simpl snd in Hs |- *.
  (* what one item does *)
  assert (Hitem : forall i t, nth_error texts i = Some t ->
            In (i, t) (enumerate texts) /\
            match fst (text_to_speech transport t voice fmt) with
            | Return a => fst (g (i, t)) = Return (name i) /\ In (WriteFile (name i) a) (snd (g (i, t)))
            | Raise e => fst (g (i, t)) = Raise e
            end).
  { intros i t Ht. split.
    - apply nth_error_In with (n := i). rewrite nth_error_enumerate, Ht. reflexivity.
    - apply text_to_speech_file_spec. }
  destruct r as [paths|e].
  - destruct Hs as [Hm Htr]. split.
    + apply nth_error_ext. intros i.
      destruct (nth_error texts i) as [t|] eqn:Ht.
      * assert (Hi : (i < length texts)%nat) by (apply nth_error_Some; congruence).
        rewrite nth_error_map_seq by exact Hi.
        assert (He : nth_error (enumerate texts) i = Some (i, t))
          by (rewrite nth_error_enumerate, Ht; reflexivity).
        destruct (map_Return_nth _ _ (fun x => fst (g x)) _ _ _ _ (eq_sym Hm) He) as [v [Hv Hg]].
        rewrite Hv. destruct (Hitem i t Ht) as [_ Hx].
        destruct (fst (text_to_speech transport t voice fmt)).
        -- destruct Hx as [Hx _]. congruence.
        -- congruence.
      * assert (Hl : length paths = length texts).
        { apply (f_equal (@length _)) in Hm. rewrite !length_map in Hm.
          unfold enumerate in Hm. rewrite length_combine, length_seq, Nat.min_id in Hm.
          exact Hm. }
        assert (Hi : (length texts <= i)%nat) by (apply nth_error_None; exact Ht).
        rewrite (proj2 (nth_error_None paths i)) by lia.
        rewrite nth_error_map, nth_error_seq.
        replace (Nat.ltb i (length texts)) with false by (symmetry; apply Nat.ltb_ge; lia).
        reflexivity.
    + intros i t Ht. destruct (Hitem i t Ht) as [Hin Hx].
      destruct (fst (text_to_speech transport t voice fmt)) as [a|e] eqn:Ha.
      * exists a. split; [reflexivity|]. right. rewrite Htr. apply in_flat_map.
        exists (i, t). split; [exact Hin|apply Hx].
      * assert (He : nth_error (enumerate texts) i = Some (i, t))
          by (rewrite nth_error_enumerate, Ht; reflexivity).
        destruct (map_Return_nth _ _ (fun x => fst (g x)) _ _ _ _ (eq_sym Hm) He) as [v [_ Hg]].
        congruence.
  - destruct Hs as [i [[k t] [Hi [He [Hpre Htr]]]]].
    rewrite nth_error_enumerate in Hi.
    destruct (nth_error texts i) as [t'|] eqn:Ht; simpl in Hi; inversion Hi; subst k t'.
    exists i, t. split; [exact Ht|].
    destruct (Hitem i t Ht) as [_ Hx].
    split.
    + destruct (fst (text_to_speech transport t voice fmt)); [destruct Hx; congruence|congruence].
    + intros j u Hj Hu. destruct (Hitem j u Hu) as [_ Hy].
      assert (Hej : nth_error (enumerate texts) j = Some (j, u))
        by (rewrite nth_error_enumerate, Hu; reflexivity).
      destruct (Hpre j (j, u) Hj Hej) as [v Hv].
      destruct (fst (text_to_speech transport u voice fmt)) as [a|e'].
      * exists a. split; [reflexivity|]. right. rewrite Htr. apply in_flat_map.
        exists (j, u). split; [apply (in_firstn_nth _ _ _ j); [lia|exact Hej]|apply Hy].
      * congruence.
Qed.

Lemma pystr_eqb_spec : forall a b, pystr_eqb a b = true <-> a = b.
Proof.
  intros a b. unfold pystr_eqb. destruct (list_eq_dec N.eq_dec a b); split; congruence.
Qed.

Lemma dict_set_absent : forall V k (v : V) d,
  ~ In k (map fst d) -> dict_set k v d = d ++ [(k, v)].
Proof.
  intros V k v d. induction d as [|[k' v'] d IH]; intros Hn; simpl; [reflexivity|].
  destruct (pystr_eqb k k') eqn:E.
  - apply pystr_eqb_spec in E. subst. simpl in Hn. tauto.
  - rewrite IH; [reflexivity|]. simpl in Hn. tauto.
Qed.

Lemma dict_loop_all_succeed : forall path parent join transport output_dir ext voice fmt
    items (results : list (pystr * path)),
  NoDup (map fst items) ->
  (forall k, In k (map fst items) -> ~ In k (map fst results)) ->
  (forall k t, In (k, t) items -> exists a, fst (text_to_speech transport t voice fmt) = Return a) ->
  fst (dict_loop path parent join transport output_dir ext voice fmt items results)
    = Return (results ++ map (fun '(k, _) => (k, join output_dir (k ++ lit "." ++ ext))) items).
Proof.
  intros path parent join transport output_dir ext voice fmt items.
  induction items as [|[k t] items IH]; intros results Hnd Hfresh Hok; cbn [dict_loop fst].
  - rewrite app_nil_r. reflexivity.
  -     pose proof (text_to_speech_file_spec path parent transport t
                  (join output_dir (k ++ lit "." ++ ext)) voice fmt) as Hf.
    destruct (Hok k t (or_introl eq_refl)) as [a Ha]. rewrite Ha in Hf.
    destruct Hf as [Hf _].
    destruct (text_to_speech_file path parent transport t
                (join output_dir (k ++ lit "." ++ ext)) voice fmt) as [r ev] eqn:Htf.
    cbn [fst] in Hf. subst r.
    cbn [fst]. rewrite dict_set_absent by (apply Hfresh; left; reflexivity).
    inversion Hnd as [|? ? Hk Hnd']; subst.
    destruct (dict_loop path parent join transport output_dir ext voice fmt items
                (results ++ [(k, join output_dir (k ++ lit "." ++ ext))])) as [r' ev'] eqn:Hl.
    cbn [fst]. specialize (IH (results ++ [(k, join output_dir (k ++ lit "." ++ ext))])).
    rewrite Hl in IH. simpl in IH. rewrite IH.
    + rewrite <- app_assoc. reflexivity.
    + exact Hnd'.
    + intros k' Hk' Hin. rewrite map_app, in_app_iff in Hin. destruct Hin as [Hin|Hin].
      * apply (Hfresh k'); [right; exact Hk'|exact Hin].
      * simpl in Hin. destruct Hin as [<-|[]]. contradiction.
    + intros k' t' Hin. apply (Hok k' t'). right. exact Hin.
Qed.

(** X11: when every text converts, batch_text_to_speech_dict returns, in
    the order of the input dict, each key mapped to output_dir / key.ext. *)
Theorem batch_dict_keys_to_paths : forall path parent join transport text_dict output_dir
    voice fmt,
  NoDup (map fst text_dict) ->
  (forall k t, In (k, t) text_dict ->
     exists a, fst (text_to_speech transport t voice fmt) = Return a) ->
  fst (batch_text_to_speech_dict path parent join transport text_dict output_dir voice fmt)
    = Return (map (fun '(k, _) => (k, join output_dir (k ++ lit "." ++ file_ext fmt)))
                  text_dict).
Proof.
  intros path parent join transport text_dict output_dir voice fmt Hnd Hok.
  unfold batch_text_to_speech_dict.
  pose proof (dict_loop_all_succeed path parent join transport output_dir (file_ext fmt)
                voice fmt text_dict [] Hnd (fun k _ H => H) Hok) as H.
  destruct (dict_loop path parent join transport output_dir (file_ext fmt) voice fmt
              text_dict []) as [r ev]. exact H.
Qed.

Lemma run_sequential_items_collect : forall B A (f : B -> outcome A) xs,
  run_sequential_items f xs = collect (map f xs).
Proof.
  intros B A f xs. induction xs as [|x xs IH]; simpl; [reflexivity|].
  destruct (f x); [|reflexivity]. rewrite IH. reflexivity.
Qed.

(** X12: when every text converts, the async batch_text_to_speech_files
    returns the paths output_dir / prefix_i.ext in input order, in
    concurrent and in sequential mode alike. *)
Theorem batch_files_async_all_succeed : forall path join client_open tr rnd texts
    output_dir prefix voice fmt concurrent completion,
  (forall t, In t texts ->
     exists a, fst (fst (text_to_speech_async client_open (fun _ => tr) rnd t voice fmt))
               = Return a) ->
  batch_text_to_speech_files_async path join client_open tr rnd texts output_dir prefix
    voice fmt concurrent completion
  = Return (map (fun i => join output_dir (batch_file_name prefix (file_ext fmt) i))
                (seq 0 (length texts))).
Proof.
  intros path join client_open tr rnd texts output_dir prefix voice fmt concurrent completion Hok.
  unfold batch_text_to_speech_files_async.
  set (name := fun i => join output_dir (batch_file_name prefix (file_ext fmt) i)).
  set (task := fun '(i, text) =>
         text_to_speech_file_async path client_open tr rnd text
           (join output_dir (batch_file_name prefix (file_ext fmt) i)) voice fmt).
  assert (Hm : map task (enumerate texts) = map Return (map name (seq 0 (length texts)))).
  { rewrite <- (map_fst_enumerate_from _ texts 0). fold (enumerate texts).
    rewrite !map_map. apply map_ext_in. intros [i t] Hin.
    apply in_combine_r in Hin. destruct (Hok t Hin) as [a Ha].
    simpl. unfold text_to_speech_file_async. rewrite Ha. reflexivity. }
  destruct concurrent.
  - unfold gather. rewrite Hm, first_failure_map_Return.
    apply collect_Return. reflexivity.
  - rewrite run_sequential_items_collect, Hm. apply collect_Return. reflexivity.
Qed.

(* decimal digits *)
Lemma n_digits_app : forall f n acc, n_digits f n acc = n_digits f n [] ++ acc.
Proof.
  induction f as [|f IH]; intros n acc; simpl; [reflexivity|].
  destruct (n <? 10)%N; [reflexivity|].
  rewrite IH, (IH _ [_]). rewrite <- app_assoc. reflexivity.
Qed.

Lemma n_digits_step : forall f n,
  n_digits (S f) n [] =
  if (n <? 10)%N then [(48 + n mod 10)%N]
  else n_digits f (n / 10)%N [] ++ [(48 + n mod 10)%N].
Proof.
  intros f n. simpl. destruct (n <? 10)%N; [reflexivity|]. apply n_digits_app.
Qed.

Lemma n_digits_nonempty : forall f n, n_digits (S f) n [] <> [].
Proof.
  intros f n. rewrite n_digits_step. destruct (n <? 10)%N; [discriminate|].
  intros H. apply (f_equal (@length N)) in H. rewrite length_app in H. simpl in H. lia.
Qed.

Lemma n_digits_single : forall n m,
  (n < 10)%N -> (m < 10)%N -> [(48 + n mod 10)%N] = [(48 + m mod 10)%N] -> n = m.
Proof.
  intros n m Hn Hm Heq.
  assert (Hd : (48 + n mod 10 = 48 + m mod 10)%N) by congruence.
  rewrite (N.mod_small n 10) in Hd by exact Hn.
  rewrite (N.mod_small m 10) in Hd by exact Hm.
  apply N.add_cancel_l in Hd. exact Hd.
Qed.

Lemma n_digits_len_mismatch : forall f n d d',
  [d] <> n_digits (S f) n [] ++ [d'].
Proof.
  intros f n d d' Heq. apply (f_equal (@length N)) in Heq. rewrite length_app in Heq.
  pose proof (n_digits_nonempty f n) as Hne.
  destruct (n_digits (S f) n []); [congruence|simpl in Heq; lia].
Qed.

Lemma n_digits_inj : forall f1 f2 n m,
  (n < 10 ^ N.of_nat (S f1))%N -> (m < 10 ^ N.of_nat (S f2))%N ->
  n_digits (S f1) n [] = n_digits (S f2) m [] -> n = m.
Proof.
  induction f1 as [|f1 IH]; intros f2 n m Hn Hm Heq;
    rewrite (n_digits_step _ n), (n_digits_step _ m) in Heq.
  - change (10 ^ N.of_nat 1)%N with 10%N in Hn.
    replace (n <? 10)%N with true in Heq by (symmetry; apply N.ltb_lt; exact Hn).
    destruct (m <? 10)%N eqn:Em.
    + apply N.ltb_lt in Em. exact (n_digits_single n m Hn Em Heq).
    + destruct f2 as [|f2].
      * change (10 ^ N.of_nat 1)%N with 10%N in Hm. apply N.ltb_ge in Em. lia.
      * exfalso. exact (n_digits_len_mismatch _ _ _ _ Heq).
  - destruct (n <? 10)%N eqn:En; destruct (m <? 10)%N eqn:Em.
    + apply N.ltb_lt in En, Em. exact (n_digits_single n m En Em Heq).
    + destruct f2 as [|f2].
      * change (10 ^ N.of_nat 1)%N with 10%N in Hm. apply N.ltb_ge in Em. lia.
      * exfalso. exact (n_digits_len_mismatch _ _ _ _ Heq).
    + exfalso. exact (n_digits_len_mismatch _ _ _ _ (eq_sym Heq)).
    + destruct f2 as [|f2].
      * change (10 ^ N.of_nat 1)%N with 10%N in Hm. apply N.ltb_ge in Em. lia.
      * apply app_inj_tail in Heq. destruct Heq as [Hq Hr].
        assert (Hq' : (n / 10 = m / 10)%N).
        { apply (IH f2); [| |exact Hq].
          - apply N.Div0.div_lt_upper_bound. rewrite <- N.pow_succ_r'.
            replace (N.succ (N.of_nat (S f1))) with (N.of_nat (S (S f1))) by lia. exact Hn.
          - apply N.Div0.div_lt_upper_bound. rewrite <- N.pow_succ_r'.
            replace (N.succ (N.of_nat (S f2))) with (N.of_nat (S (S f2))) by lia. exact Hm. }
        assert (Hr' : (n mod 10 = m mod 10)%N) by lia.
        rewrite (N.div_mod n 10), (N.div_mod m 10) by discriminate. rewrite Hq', Hr'. reflexivity.
Qed.

Lemma pos_lt_pow2_size : forall p, (Npos p < 2 ^ N.of_nat (Pos.size_nat p))%N.
Proof.
  induction p as [p IH|p IH|]; cbn [Pos.size_nat];
    try (replace (N.of_nat (S (Pos.size_nat p))) with (N.succ (N.of_nat (Pos.size_nat p))) by lia;
         rewrite N.pow_succ_r'); lia.
Qed.

Lemma n_lt_pow10_size : forall n, (n < 10 ^ N.of_nat (S (N.size_nat n)))%N.
Proof.
  intros [|p]; [cbn; lia|].
  cbn [N.size_nat]. pose proof (pos_lt_pow2_size p) as H.
  assert (H2 : (2 ^ N.of_nat (Pos.size_nat p) <= 10 ^ N.of_nat (Pos.size_nat p))%N)
    by (apply N.pow_le_mono_l; lia).
  assert (H3 : (10 ^ N.of_nat (Pos.size_nat p) <= 10 ^ N.of_nat (S (Pos.size_nat p)))%N)
    by (apply N.pow_le_mono_r; lia).
  lia.
Qed.

Lemma z_str_nat_inj : forall i j, z_str (Z.of_nat i) = z_str (Z.of_nat j) -> i = j.
Proof.
  intros i j H. unfold z_str in H.
  replace (Z.of_nat i <? 0) with false in H by (symmetry; apply Z.ltb_ge; lia).
  replace (Z.of_nat j <? 0) with false in H by (symmetry; apply Z.ltb_ge; lia).
  apply n_digits_inj in H; [|apply n_lt_pow10_size|apply n_lt_pow10_size]. lia.
Qed.

Lemma batch_file_name_inj : forall prefix ext i j,
  batch_file_name prefix ext i = batch_file_name prefix ext j -> i = j.
Proof.
  unfold batch_file_name. intros prefix ext i j H.
  apply app_inv_head in H. apply app_inv_head in H.
  apply app_inv_tail in H. apply z_str_nat_inj. exact H.
Qed.

(** X10: the file names prefix_i.ext of batch_text_to_speech_files are
    pairwise distinct, so no text of a batch overwrites another one. *)
Theorem batch_file_names_distinct : forall prefix ext n,
  NoDup (map (batch_file_name prefix ext) (seq 0 n)).
Proof.
  intros prefix ext n. generalize 0%nat as s.
  induction n as [|n IH]; intros s; [constructor|].
  cbn [seq map]. constructor; [|apply IH].
  intros Hin. apply in_map_iff in Hin. destruct Hin as [k [Hk Hin]].
  apply batch_file_name_inj in Hk. apply in_seq in Hin. lia.
Qed.

(* ---- CLI line reading ---- *)

Lemma translate_newlines_no_cr_len : forall n s, (length s <= n)%nat ->
  ~ In 13%N (translate_newlines s).
Proof.
  induction n as [|n IH]; intros s Hl.
  - destruct s; [simpl; tauto|simpl in Hl; lia].
  - destruct s as [|c s']; [simpl; tauto|].
    cbn [translate_newlines].
    destruct (c =? 13)%N eqn:Ec.
    + destruct s' as [|d s''].
      * simpl. intros [H|H]; [discriminate|exact H].
      * destruct (d =? 10)%N.
        -- intros [H|H]; [discriminate|]. revert H. apply IH. simpl in Hl |- *. lia.
        -- intros [H|H]; [discriminate|]. revert H. apply IH. simpl in Hl |- *. lia.
    + intros [H|H].
      * subst c. discriminate.
      * revert H. apply IH. simpl in Hl. lia.
Qed.

Lemma translate_newlines_no_cr : forall s, ~ In 13%N (translate_newlines s).
Proof. intros s. apply (translate_newlines_no_cr_len (length s)). lia. Qed.

Lemma translate_newlines_id : forall s, ~ In 13%N s -> translate_newlines s = s.
Proof.
  induction s as [|c s IH]; intros H; [reflexivity|].
  cbn [translate_newlines].
  destruct (c =? 13)%N eqn:Ec.
  - apply N.eqb_eq in Ec. subst c. exfalso. apply H. left. reflexivity.
  - rewrite IH; [reflexivity|]. intros H'. apply H. right. exact H'.
Qed.

Lemma split_lines_shape : forall s cur l, ~ In 10%N cur ->
  In l (split_lines s cur) ->
  exists b, ~ In 10%N b /\ (l = b \/ l = b ++ [10%N]) /\ (forall x, In x b -> In x s \/ In x cur).
Proof.
  induction s as [|c s IH]; intros cur l Hcur Hin.
  - cbn [split_lines] in Hin. destruct cur as [|x cur']; [destruct Hin|].
    destruct Hin as [Hl|[]]. subst l. exists (rev (x :: cur')). split; [|split].
    + rewrite <- in_rev. exact Hcur.
    + left. reflexivity.
    + intros y Hy. right. rewrite in_rev. exact Hy.
  - cbn [split_lines] in Hin. destruct (c =? 10)%N eqn:Ec.
    + destruct Hin as [Hl|Hin].
      * apply N.eqb_eq in Ec. subst c l. exists (rev cur). split; [|split].
        -- rewrite <- in_rev. exact Hcur.
        -- right. reflexivity.
        -- intros y Hy. right. rewrite in_rev. exact Hy.
      * destruct (IH [] l (fun H => H) Hin) as [b [Hb [Hlb Hx]]].
        exists b. split; [exact Hb|split; [exact Hlb|]].
        intros y Hy. destruct (Hx y Hy) as [H|[]]. left. right. exact H.
    + assert (Hc : ~ In 10%N (c :: cur)).
      { intros [H|H]; [subst c; discriminate|exact (Hcur H)]. }
      destruct (IH (c :: cur) l Hc Hin) as [b [Hb [Hlb Hx]]].
      exists b. split; [exact Hb|split; [exact Hlb|]].
      intros y Hy. destruct (Hx y Hy) as [H|[H|H]].
      * left. right. exact H.
      * left. left. exact H.
      * right. exact H.
Qed.

Lemma lstrip_suffix : forall s, exists p, s = p ++ lstrip s.
Proof.
  induction s as [|c s IH]; [exists []; reflexivity|].
  cbn [lstrip]. destruct (py_isspace c).
  - destruct IH as [p Hp]. exists (c :: p). simpl. congruence.
  - exists []. reflexivity.
Qed.

Lemma lstrip_head : forall s c rest, lstrip s = c :: rest -> py_isspace c = false.
Proof.
  induction s as [|d s IH]; intros c rest H; [discriminate|].
  cbn [lstrip] in H. destruct (py_isspace d) eqn:Ed.
  - exact (IH _ _ H).
  - injection H as -> _. exact Ed.
Qed.

Lemma in_py_strip : forall s x, In x (py_strip s) -> In x s.
Proof.
  intros s x H. unfold py_strip in H. rewrite <- in_rev in H.
  destruct (lstrip_suffix (rev (lstrip s))) as [p Hp].
  assert (H1 : In x (rev (lstrip s))) by (rewrite Hp; apply in_or_app; right; exact H).
  rewrite <- in_rev in H1.
  destruct (lstrip_suffix s) as [q Hq]. rewrite Hq. apply in_or_app. right. exact H1.
Qed.

Lemma py_strip_first : forall s c rest, py_strip s = c :: rest -> py_isspace c = false.
Proof.
  intros s c rest H. unfold py_strip in H.
  destruct (lstrip_suffix (rev (lstrip s))) as [p Hp].
  apply (f_equal (@rev N)) in Hp. rewrite rev_app_distr, rev_involutive, H in Hp.
  simpl in Hp. eapply lstrip_head. exact Hp.
Qed.

Lemma py_strip_last : forall s init c, py_strip s = init ++ [c] -> py_isspace c = false.
Proof.
  intros s init c H. unfold py_strip in H.
  apply (f_equal (@rev N)) in H. rewrite rev_involutive, rev_app_distr in H.
  simpl in H. eapply lstrip_head. exact H.
Qed.

Lemma lstrip_snoc_space : forall b c, py_isspace c = true ->
  lstrip (b ++ [c]) = match lstrip b with [] => [] | l => l ++ [c] end.
Proof.
  induction b as [|d b IH]; intros c Hc.
  - simpl. rewrite Hc. reflexivity.
  - cbn [app lstrip]. destruct (py_isspace d).
    + apply IH. exact Hc.
    + reflexivity.
Qed.

Lemma py_strip_snoc_space : forall b c, py_isspace c = true ->
  py_strip (b ++ [c]) = py_strip b.
Proof.
  intros b c Hc. unfold py_strip. rewrite (lstrip_snoc_space b c Hc).
  destruct (lstrip b) as [|x l] eqn:E; [reflexivity|].
  rewrite rev_app_distr. simpl. rewrite Hc. reflexivity.
Qed.

Lemma py_strip_snoc_nl : forall b, py_strip (b ++ [10%N]) = py_strip b.
Proof. intros b. apply py_strip_snoc_space. reflexivity. Qed.

(** X16: every text the CLI batch command reads from a plain-text file is
    non-empty, contains no line break, and neither starts nor ends with a
    whitespace character. *)
Theorem read_text_lines_texts : forall contents t,
  In t (read_text_lines contents) ->
  ~ In 10%N t /\ ~ In 13%N t /\
  (exists c rest, t = c :: rest /\ py_isspace c = false) /\
  (exists init c, t = init ++ [c] /\ py_isspace c = false).
Proof.
  intros contents t H. unfold read_text_lines in H.
  apply in_map_iff in H. destruct H as [line [Ht Hin]].
  apply filter_In in Hin. destruct Hin as [Hin Hne].
  destruct (split_lines_shape _ [] line (fun H => H) Hin) as [b [Hb [Hl Hx]]].
  assert (Hsb : py_strip line = py_strip b)
    by (destruct Hl as [->| ->]; [reflexivity|apply py_strip_snoc_nl]).
  split; [|split; [|split]].
  - intros H10. subst t. rewrite Hsb in H10. apply in_py_strip in H10. exact (Hb H10).
  - intros H13. subst t. rewrite Hsb in H13. apply in_py_strip in H13.
    destruct (Hx _ H13) as [H|[]]. exact (translate_newlines_no_cr _ H).
  - destruct t as [|c rest]; [rewrite Ht in Hne; discriminate|].
    exists c, rest. split; [reflexivity|]. eapply py_strip_first. exact Ht.
  - destruct t as [|c rest] using rev_ind; [rewrite Ht in Hne; discriminate|].
    exists rest, c. split; [reflexivity|]. eapply py_strip_last. exact Ht.
Qed.

Lemma split_lines_line : forall l rest cur, ~ In 10%N l ->
  split_lines (l ++ 10%N :: rest) cur = (rev cur ++ l ++ [10%N]) :: split_lines rest [].
Proof.
  induction l as [|c l IH]; intros rest cur Hl.
  - reflexivity.
  - cbn [app split_lines].
    destruct (c =? 10)%N eqn:Ec.
    + apply N.eqb_eq in Ec. subst c. exfalso. apply Hl. left. reflexivity.
    + rewrite IH by (intros H; apply Hl; right; exact H).
      simpl. rewrite <- app_assoc. reflexivity.
Qed.

(** X17: a file made of non-empty, already stripped texts without line
    breaks, each followed by a newline, is read back by the CLI batch
    command as exactly those texts. *)
Theorem read_text_lines_roundtrip : forall texts,
  Forall (fun t => t <> [] /\ py_strip t = t /\ ~ In 10%N t /\ ~ In 13%N t) texts ->
  read_text_lines (concat (map (fun t => t ++ [10%N]) texts)) = texts.
Proof.
  intros texts Hall. unfold read_text_lines.
  rewrite translate_newlines_id.
  2:{ intros H. apply in_concat in H. destruct H as [l [Hl H]].
      apply in_map_iff in Hl. destruct Hl as [t [<- Ht]].
      rewrite Forall_forall in Hall. destruct (Hall t Ht) as [_ [_ [_ H13]]].
      apply in_app_or in H. destruct H as [H|[H|[]]]; [exact (H13 H)|discriminate]. }
  induction Hall as [|t texts [Hne [Hs [H10 _]]] _ IH]; [reflexivity|].
  cbn [map concat]. rewrite <- app_assoc. cbn [app].
  rewrite split_lines_line by exact H10. cbn [rev app].
  cbn [filter]. rewrite py_strip_snoc_nl, Hs.
  destruct t as [|c t']; [congruence|]. cbn [map].
  rewrite py_strip_snoc_nl, Hs, IH. reflexivity.
Qed.

(** X13: an explicit empty api_key raises AuthenticationError even when
    YARNGPT_API_KEY is set (sync and async constructors), and an omitted
    api_key behaves as passing the environment value. *)
Theorem api_key_argument_resolution : forall env_key base_url_arg timeout_arg retry_config_arg,
  yarngpt_init env_key (Some []) base_url_arg timeout_arg = Raise (AuthenticationError missing_key_msg) /\
  async_yarngpt_init env_key (Some []) base_url_arg timeout_arg retry_config_arg
    = Raise (AuthenticationError missing_key_msg) /\
  yarngpt_init env_key None base_url_arg timeout_arg
    = yarngpt_init env_key (Some env_key) base_url_arg timeout_arg.
Proof. intros. repeat split; reflexivity. Qed.

(** X14: a successfully constructed client has a non-empty api key and a
    non-empty base URL; an AsyncYarnGPT also starts with no HTTP client. *)
Theorem init_settings_nonempty : forall env_key api_key_arg base_url_arg timeout_arg retry_config_arg,
  (forall s, yarngpt_init env_key api_key_arg base_url_arg timeout_arg = Return s ->
     api_key s <> [] /\ base_url s <> []) /\
  (forall c, async_yarngpt_init env_key api_key_arg base_url_arg timeout_arg retry_config_arg = Return c ->
     api_key (settings c) <> [] /\ base_url (settings c) <> [] /\ client_initialized c = false).
Proof.
  intros env_key api_key_arg base_url_arg timeout_arg retry_config_arg.
  assert (Hs : forall s, yarngpt_init env_key api_key_arg base_url_arg timeout_arg = Return s ->
     api_key s <> [] /\ base_url s <> []).
  { intros s H. unfold yarngpt_init in H.
    destruct (match api_key_arg with None => env_key | Some k => k end) as [|x k]; [discriminate|].
    injection H as <-. cbn [api_key base_url]. split; [discriminate|].
    destruct base_url_arg as [[|y u]|]; discriminate. }
  split; [exact Hs|].
  intros c H. unfold async_yarngpt_init in H.
  destruct (yarngpt_init env_key api_key_arg base_url_arg timeout_arg) as [s|e] eqn:E; [|discriminate].
  injection H as <-. cbn [settings client_initialized].
  destruct (Hs s eq_refl) as [H1 H2]. auto.
Qed.

(** X15: every Voice has a non-empty description; the default of
    descriptions.get is never used. *)
Theorem description_nonempty : forall v, description v <> [].
Proof. intros v. destruct v; vm_compute; discriminate. Qed.

(* ------------------------------------------------------------------------- *)
(** * Counterexamples *)

(** C1 fails as stated: a timeout in the synchronous client is surfaced after a
    single post, with no wait and no retry; and in the asynchronous client a
    503 response is raised as a plain [APIError] after one invocation. *)
Lemma request_retry_counterexample :
  text_to_speech (fun _ => TExn (TTimeout (lit "t"))) (lit "A") None None
    = (Raise (APIError (PStr (lit "Request timed out: t"))),
       [Post (build_payload (lit "A") None None)]) /\
  text_to_speech_async true (fun _ _ => TResp (resp_with_status 503)) (fun _ => 0%Q)
                       (lit "A") None None
    = (Raise (APIError (PStr (lit "API request failed with status 503: oops"))), 1%nat,
       [Post (build_payload (lit "A") None None)]).
Proof. split; reflexivity. Qed.

(** C9 fails as stated: for the batch of the texts "A" and the empty text, where the second fails
    validation, the batch raises instead of reporting per-item results, in
    the concurrent mode (either completion order) and in the sequential
    mode. *)
Lemma batch_result_collecting_counterexample :
  batch_text_to_speech_async true (fun _ => TResp ok_response) (fun _ => 0%Q)
    [lit "A"; []] None None true [0; 1]%nat
    = Raise (ValidationError (PStr (lit "Text cannot be empty"))) /\
  batch_text_to_speech_async true (fun _ => TResp ok_response) (fun _ => 0%Q)
    [lit "A"; []] None None true [1; 0]%nat
    = Raise (ValidationError (PStr (lit "Text cannot be empty"))) /\
  batch_text_to_speech_async true (fun _ => TResp ok_response) (fun _ => 0%Q)
    [lit "A"; []] None None false [0; 1]%nat
    = Raise (ValidationError (PStr (lit "Text cannot be empty"))).
Proof. repeat split; reflexivity. Qed.



(* ------------------------------------------------------------------------- *)
(** * Witnesses: the theorems applied at concrete inputs *)



Lemma quota_429_not_retried_witness :
  status_code resp_429 = 429 /\
  classify_response resp_429 = Raise (QuotaExceededError (PStr (lit "Quota exceeded"))).
Proof.
  split; [reflexivity|].
  exact (proj1 (quota_429_not_retried resp_429 eq_refl)).
Defined.

Lemma text_validation_witness :
  ([] = @nil N \/ 2000 < Z.of_nat (length (@nil N))) /\
  exists m, text_to_speech (fun _ => TResp ok_response) [] None None
            = (Raise (ValidationError m), []).
Proof.
  assert (H : [] = @nil N \/ 2000 < Z.of_nat (length (@nil N))) by (left; reflexivity).
  split; [exact H|].
  exact (proj1 (proj1 (text_validation (fun _ => TResp ok_response) true
                         (fun _ _ => TResp ok_response) (fun _ => 0%Q) [] None None) H)).
Defined.

Lemma retry_config_validation_witness :
  0 <= 3 /\ (1 <= 2 # 1)%Q /\ (0 <= 60 # 1)%Q /\
  make_retry_config 3 (2 # 1) (60 # 1) [500] true
    = Return {| max_retries := 3; backoff_factor := 2 # 1; max_backoff := 60 # 1;
                retry_statuses := [500]; jitter := true |}.
Proof.
  assert (H1 : 0 <= 3) by lia.
  assert (H2 : (1 <= 2 # 1)%Q) by (unfold Qle; simpl; lia).
  assert (H3 : (0 <= 60 # 1)%Q) by (unfold Qle; simpl; lia).
  split; [exact H1|]. split; [exact H2|]. split; [exact H3|].
  exact (proj1 (proj2 (retry_config_validation 3 (2 # 1) (60 # 1) [500] true)) H1 H2 H3).
Defined.

Lemma payload_voice_format_unchecked_witness :
  validate_text (lit "Hi") = None /\
  dict_lookup (lit "voice")
    (build_payload (lit "Hi") (Some (VoiceObj (lit "Nobody"))) (Some (FormatObj (lit "ogg"))))
  = Some (PStr (lit "Nobody")).
Proof.
  assert (H : validate_text (lit "Hi") = None) by reflexivity.
  split; [exact H|].
  exact (proj1 (proj2 (proj2 (proj2 (proj2
           (payload_voice_format_unchecked (fun _ => TResp ok_response) true
              (fun _ _ => TResp ok_response) (fun _ => 0%Q) (lit "Hi")
              (Some (VoiceObj (lit "Nobody"))) (Some (FormatObj (lit "ogg"))) H)))))).
Defined.

Lemma request_retry_by_client_witness :
  validate_text (lit "A") = None /\
  (2 <= snd (fst (text_to_speech_async true (fun _ _ => TExn (TTimeout (lit "t")))
                                       (fun _ => 0%Q) (lit "A") None None)))%nat.
Proof.
  assert (H : validate_text (lit "A") = None) by reflexivity.
  split; [exact H|].
  destruct (proj1 (proj2 (proj2 request_retry_by_client))
              (fun _ _ => TExn (TTimeout (lit "t"))) (fun _ => 0%Q) (lit "A") None None H
              (fun k => ex_intro _ (TTimeout (lit "t")) (conj eq_refl eq_refl)))
    as [_ [_ [H2 _]]].
  exact H2.
Defined.

Lemma batch_concurrent_matches_sequential_witness :
  batch_text_to_speech_async true (fun _ => TResp ok_response) (fun _ => 0%Q)
    [lit "a"; lit "b"; lit "c"] None None true [2; 0; 1]%nat
    = Return [[Byte.x41]; [Byte.x41]; [Byte.x41]] /\
  batch_text_to_speech_async true (fun _ => TResp ok_response) (fun _ => 0%Q)
    [lit "a"; lit "b"; lit "c"] None None false [2; 0; 1]%nat
    = Return [[Byte.x41]; [Byte.x41]; [Byte.x41]].
Proof.
  assert (H : batch_text_to_speech_async true (fun _ => TResp ok_response) (fun _ => 0%Q)
                [lit "a"; lit "b"; lit "c"] None None true [2; 0; 1]%nat
              = Return [[Byte.x41]; [Byte.x41]; [Byte.x41]]) by reflexivity.
  split; [exact H|].
  exact (proj2 (proj2 (proj1 (batch_concurrent_matches_sequential true
           (fun _ => TResp ok_response) (fun _ => 0%Q) [lit "a"; lit "b"; lit "c"] None None
           [2; 0; 1]%nat [[Byte.x41]; [Byte.x41]; [Byte.x41]]) H))).
Defined.

Lemma batch_raises_on_partial_failure_witness :
  exists e, batch_text_to_speech_async true (fun _ => TResp ok_response) (fun _ => 0%Q)
              [lit "A"; []] None None true [1; 0]%nat = Raise e.
Proof.
  apply (batch_raises_on_partial_failure true (fun _ => TResp ok_response) (fun _ => 0%Q)
           [lit "A"; []] None None true [1; 0]%nat).
  exists 1%nat, [], (ValidationError (PStr (lit "Text cannot be empty"))).
  split; reflexivity.
Defined.

Lemma async_call_budget_witness :
  (forall z : Z, (0 <= 0 /\ 0 < 1)%Q) /\
  (count_posts (snd (text_to_speech_async true (fun _ _ => TExn (TTimeout (lit "t")))
                       (fun _ => 0%Q) (lit "A") None None)) <= 4)%nat.
Proof.
  assert (H : forall z : Z, (0 <= (fun _ : Z => 0%Q) z /\ (fun _ : Z => 0%Q) z < 1)%Q)
    by (intros z; cbv beta; split; [unfold Qle|unfold Qlt]; simpl; lia).
  split; [exact H|].
  exact (proj1 (async_call_budget true (fun _ _ => TExn (TTimeout (lit "t"))) (fun _ => 0%Q)
                  (lit "A") None None H)).
Defined.

Lemma unopened_client_runtime_error_witness :
  validate_text (lit "A") = None /\
  async_text_to_speech
    (aclose {| settings := {| api_key := lit "k"; base_url := DEFAULT_BASE_URL; timeout := 1 |};
               retry_config := default_retry_config; client_initialized := true |})
    (fun _ _ => TResp ok_response) (fun _ => 0%Q) (lit "A") None None
  = (Raise (RuntimeError runtime_msg), 1%nat, []).
Proof.
  assert (H : validate_text (lit "A") = None) by reflexivity.
  split; [exact H|].
  exact (proj1 (unopened_client_runtime_error
                  {| settings := {| api_key := lit "k"; base_url := DEFAULT_BASE_URL; timeout := 1 |};
                     retry_config := default_retry_config; client_initialized := true |}
                  (fun _ _ => TResp ok_response) (fun _ => 0%Q) (lit "A") None None H)).
Defined.

Lemma batch_dict_keys_to_paths_witness :
  NoDup (map fst [(lit "a", lit "x"); (lit "b", lit "y")]) /\
  fst (batch_text_to_speech_dict pystr (fun p => p) (fun d n => d ++ lit "/" ++ n)
         (fun _ => TResp ok_response) [(lit "a", lit "x"); (lit "b", lit "y")] (lit "out")
         None None)
  = Return (map (fun '(k, _) => (k, lit "out" ++ lit "/" ++ (k ++ lit "." ++ file_ext None)))
                [(lit "a", lit "x"); (lit "b", lit "y")]).
Proof.
  assert (Hnd : NoDup (map fst [(lit "a", lit "x"); (lit "b", lit "y")])).
  { constructor; [|constructor; [intros []|constructor]].
    intros [H|[]]. discriminate H. }
  assert (Hok : forall k t, In (k, t) [(lit "a", lit "x"); (lit "b", lit "y")] ->
            exists a, fst (text_to_speech (fun _ => TResp ok_response) t None None) = Return a).
  { intros k t [H|[H|[]]]; injection H as _ <-; eexists; reflexivity. }
  split; [exact Hnd|].
  exact (batch_dict_keys_to_paths pystr (fun p => p) (fun d n => d ++ lit "/" ++ n)
           (fun _ => TResp ok_response) [(lit "a", lit "x"); (lit "b", lit "y")] (lit "out")
           None None Hnd Hok).
Defined.

Lemma batch_files_async_all_succeed_witness :
  (forall t, In t [lit "a"; lit "b"] ->
     exists a, fst (fst (text_to_speech_async true (fun _ => fun _ => TResp ok_response)
                           (fun _ => 0%Q) t None None)) = Return a) /\
  batch_text_to_speech_files_async pystr (fun d n => d ++ lit "/" ++ n) true
    (fun _ => TResp ok_response) (fun _ => 0%Q) [lit "a"; lit "b"] (lit "out") (lit "audio")
    None None true [1; 0]%nat
  = Return (map (fun i => lit "out" ++ lit "/" ++ batch_file_name (lit "audio") (file_ext None) i)
                (seq 0 2)).
Proof.
  assert (Hok : forall t, In t [lit "a"; lit "b"] ->
     exists a, fst (fst (text_to_speech_async true (fun _ => fun _ => TResp ok_response)
                           (fun _ => 0%Q) t None None)) = Return a).
  { intros t [<-|[<-|[]]]; eexists; reflexivity. }
  split; [exact Hok|].
  exact (batch_files_async_all_succeed pystr (fun d n => d ++ lit "/" ++ n) true
           (fun _ => TResp ok_response) (fun _ => 0%Q) [lit "a"; lit "b"] (lit "out")
           (lit "audio") None None true [1; 0]%nat Hok).
Defined.

Lemma read_text_lines_texts_witness :
  In (lit "a") (read_text_lines (lit " a " ++ [13%N; 10%N] ++ lit "b")) /\
  ~ In 10%N (lit "a").
Proof.
  assert (H : In (lit "a") (read_text_lines (lit " a " ++ [13%N; 10%N] ++ lit "b")))
    by (vm_compute; left; reflexivity).
  split; [exact H|].
  exact (proj1 (read_text_lines_texts (lit " a " ++ [13%N; 10%N] ++ lit "b") (lit "a") H)).
Defined.

Lemma read_text_lines_roundtrip_witness :
  Forall (fun t => t <> [] /\ py_strip t = t /\ ~ In 10%N t /\ ~ In 13%N t)
    [lit "hello"; lit "a b"] /\
  read_text_lines (concat (map (fun t => t ++ [10%N]) [lit "hello"; lit "a b"]))
    = [lit "hello"; lit "a b"].
Proof.
  assert (H : Forall (fun t => t <> [] /\ py_strip t = t /\ ~ In 10%N t /\ ~ In 13%N t)
                [lit "hello"; lit "a b"]).
  { repeat constructor; try discriminate; try (vm_compute; reflexivity);
      intros Hin; vm_compute in Hin; repeat (destruct Hin as [Hin|Hin]; [discriminate Hin|]);
      exact Hin. }
  split; [exact H|].
  exact (read_text_lines_roundtrip [lit "hello"; lit "a b"] H).
Defined.
